(** * The mid/transport registry of pc/jsep_transport_collection.cc

    A shallow embedding of [webrtc::BundleManager] and
    [webrtc::JsepTransportCollection], and the properties of the
    commit/rollback protocol proved about it.

    Modelling conventions.
    - A [cricket::JsepTransport*] is the address of the object, a number;
      [nullptr] is address 0.  Pointer comparison is comparison of addresses.
    - A [std::map<std::string, V>] is a [gmap string V]; where the code
      iterates over a map, the model iterates over its entries in ascending
      key order, as [std::map] does.
    - [RTC_DCHECK(cond)] is modelled as in a build with DCHECKs enabled:
      a failed check aborts the operation ([DcheckFailed]).
    - [RTC_DCHECK_RUN_ON(&sequence_checker_)] is not modelled: every
      operation runs on the one owning sequence.
    - The two injected callbacks run inline.  They may change the state of
      the collaborator that installed them (a state of type [W]), and every
      invocation is recorded in a call log. *)

From stdpp Require Import gmap strings list fin_maps sorting.

Abbreviation JsepTransportPtr := N (only parsing).

Definition nullptr : JsepTransportPtr := 0%N.

(** One invocation of an injected callback, as seen by the collaborator. *)
Inductive Call : Type :=
  | MapChange (mid : string) (transport : JsepTransportPtr)
  | StateChange.

(** Entries of a [std::map] in iteration order: ascending keys, and
    [std::string] compares byte-wise lexicographically. *)
Definition key_le {V : Type} (a b : string * V) : Prop :=
  String.leb a.1 b.1 = true.

Global Instance key_le_dec {V : Type} (a b : string * V) :
  Decision (key_le a b).
Proof. unfold key_le. apply _. Defined.

Definition std_map_items {V : Type} (m : gmap string V) : list (string * V) :=
  merge_sort key_le (map_to_list m).

Section Collection.

Context {W : Type}.

(** What lies outside the registry: the collaborator's state and the log of
    the callback invocations made so far (oldest first). *)
Record Env : Type := mkEnv {
  world : W;
  calls : list Call
}.

(** The data members of [JsepTransportCollection].  A [unique_ptr] held in
    [jsep_transports_by_name_] is represented by the address it owns. *)
Record JsepTransportCollection : Type := mkCollection {
  jsep_transports_by_name_ : gmap string JsepTransportPtr;
  mid_to_transport_ : gmap string JsepTransportPtr;
  pending_mids_ : list string;
  map_change_callback_ : string → JsepTransportPtr → W → bool * W;
  state_change_callback_ : W → W
}.

Definition set_jsep_transports_by_name
    (f : gmap string JsepTransportPtr → gmap string JsepTransportPtr)
    (c : JsepTransportCollection) : JsepTransportCollection :=
  mkCollection (f (jsep_transports_by_name_ c)) (mid_to_transport_ c)
    (pending_mids_ c) (map_change_callback_ c) (state_change_callback_ c).

Definition set_mid_to_transport
    (f : gmap string JsepTransportPtr → gmap string JsepTransportPtr)
    (c : JsepTransportCollection) : JsepTransportCollection :=
  mkCollection (jsep_transports_by_name_ c) (f (mid_to_transport_ c))
    (pending_mids_ c) (map_change_callback_ c) (state_change_callback_ c).

Definition set_pending_mids (f : list string → list string)
    (c : JsepTransportCollection) : JsepTransportCollection :=
  mkCollection (jsep_transports_by_name_ c) (mid_to_transport_ c)
    (f (pending_mids_ c)) (map_change_callback_ c) (state_change_callback_ c).

(** ** The monad of member functions

    A member function reads and writes the collection, may run callbacks,
    and either returns or dies on a failed DCHECK. *)
Inductive Outcome (A : Type) : Type :=
  | Done (a : A) (c : JsepTransportCollection) (e : Env)
  | DcheckFailed.
Global Arguments Done {A} a c e.
Global Arguments DcheckFailed {A}.

Definition Op (A : Type) : Type := JsepTransportCollection → Env → Outcome A.

Definition op_ret {A} (a : A) : Op A := λ c e, Done a c e.

Definition op_bind {A B} (m : Op A) (k : A → Op B) : Op B :=
  λ c e, match m c e with
         | Done a c' e' => k a c' e'
         | DcheckFailed => DcheckFailed
         end.

Definition this : Op JsepTransportCollection := λ c e, Done c c e.

Definition modify (f : JsepTransportCollection → JsepTransportCollection) :
    Op unit :=
  λ c e, Done tt (f c) e.

Definition RTC_DCHECK (cond : bool) : Op unit :=
  λ c e, if cond then Done tt c e else DcheckFailed.

(** [map_change_callback_(mid, transport)] *)
Definition invoke_map_change (mid : string) (transport : JsepTransportPtr) :
    Op bool :=
  λ c e, let '(ret, w) := map_change_callback_ c mid transport (world e) in
         Done ret c (mkEnv w (calls e ++ [MapChange mid transport])).

(** [state_change_callback_()] *)
Definition invoke_state_change : Op unit :=
  λ c e, Done tt c (mkEnv (state_change_callback_ c (world e))
                          (calls e ++ [StateChange])).

End Collection.

Global Arguments Env W : clear implicits.
Global Arguments JsepTransportCollection W : clear implicits.
Global Arguments Outcome W A : clear implicits.
Global Arguments Op W A : clear implicits.

Declare Scope op_scope.
Delimit Scope op_scope with op.
Notation "x <- m ;; k" := (op_bind m (λ x, k))
  (at level 100, m at next level, right associativity) : op_scope.
Notation "m ;; k" := (op_bind m (λ _, k))
  (at level 100, right associativity) : op_scope.
Bind Scope op_scope with Op.

Section Operations.

Context {W : Type}.
Local Open Scope op_scope.

(** A range-[for] whose body is a member function. *)
Fixpoint for_each {A} (body : A → Op W unit) (l : list A) : Op W unit :=
  match l with
  | [] => op_ret tt
  | x :: l' => body x ;; for_each body l'
  end.

Definition RegisterTransport (mid : string) (transport : JsepTransportPtr) :
    Op W unit :=
  modify (set_jsep_transports_by_name <[mid := transport]>).

Definition Transports (c : JsepTransportCollection W) :
    list JsepTransportPtr :=
  (std_map_items (jsep_transports_by_name_ c)).*2.

Definition DestroyAllTransports : Op W unit :=
  c <- this ;;
  for_each (λ jsep_transport, _ <- invoke_map_change jsep_transport.1 nullptr ;;
                              op_ret tt)
           (std_map_items (jsep_transports_by_name_ c)) ;;
  modify (set_jsep_transports_by_name (λ _, ∅)).

Definition GetTransportByName (transport_name : string)
    (c : JsepTransportCollection W) : JsepTransportPtr :=
  match jsep_transports_by_name_ c !! transport_name with
  | None => nullptr
  | Some t => t
  end.

Definition GetTransportForMid (mid : string)
    (c : JsepTransportCollection W) : JsepTransportPtr :=
  match mid_to_transport_ c !! mid with
  | None => nullptr
  | Some t => t
  end.

Definition SetTransportForMid (mid : string)
    (jsep_transport : JsepTransportPtr) : Op W bool :=
  RTC_DCHECK (negb (jsep_transport =? nullptr)%N) ;;
  c <- this ;;
  let it := mid_to_transport_ c !! mid in
  if match it with
     | Some second => (second =? jsep_transport)%N
     | None => false
     end
  then op_ret true
  else
    modify (set_pending_mids (λ v, v ++ [mid])) ;;
    match it with
    | None => modify (set_mid_to_transport <[mid := jsep_transport]>)
    | Some _ => modify (set_mid_to_transport (alter (λ _, jsep_transport) mid))
    end ;;
    invoke_map_change mid jsep_transport.

Definition RemoveTransportForMid (mid : string) : Op W unit :=
  ret <- invoke_map_change mid nullptr ;;
  RTC_DCHECK ret ;;
  modify (set_mid_to_transport (delete mid)).

(** The loop of [TransportInUse], with its early return. *)
Fixpoint scan_in_use (jsep_transport : JsepTransportPtr)
    (kvs : list (string * JsepTransportPtr)) : bool :=
  match kvs with
  | [] => false
  | kv :: rest =>
      if (kv.2 =? jsep_transport)%N then true
      else scan_in_use jsep_transport rest
  end.

Definition TransportInUse (jsep_transport : JsepTransportPtr)
    (c : JsepTransportCollection W) : bool :=
  scan_in_use jsep_transport (std_map_items (mid_to_transport_ c)).

Definition MaybeDestroyJsepTransport (mid : string) : Op W unit :=
  c <- this ;;
  match jsep_transports_by_name_ c !! mid with
  | None => op_ret tt
  | Some second =>
      if TransportInUse second c then op_ret tt
      else
        modify (set_jsep_transports_by_name (delete mid)) ;;
        invoke_state_change
  end.

Definition RollbackTransports : Op W unit :=
  c <- this ;;
  for_each RemoveTransportForMid (pending_mids_ c) ;;
  c <- this ;;
  for_each MaybeDestroyJsepTransport (pending_mids_ c) ;;
  modify (set_pending_mids (λ _, [])).

Definition CommitTransports : Op W unit :=
  modify (set_pending_mids (λ _, [])).

End Operations.

(** ** Sequences of association changes made inside one transaction *)

Inductive MidOp : Type :=
  | SetOp (mid : string) (jsep_transport : JsepTransportPtr)
  | RemoveOp (mid : string).

Definition op_mid (o : MidOp) : string :=
  match o with
  | SetOp mid _ => mid
  | RemoveOp mid => mid
  end.

Definition run_op {W : Type} (o : MidOp) : Op W unit :=
  match o with
  | SetOp mid t => (_ <- SetTransportForMid mid t ;; op_ret tt)%op
  | RemoveOp mid => RemoveTransportForMid mid
  end.

(** ** The registry described in the specification's words

    These definitions follow the prose of the specification, not the code;
    the theorems below compare them with the operations above. *)

(** Some entry of the mid map references exactly this transport. *)
Definition referenced (m : gmap string JsepTransportPtr)
    (t : JsepTransportPtr) : Prop :=
  ∃ mid, m !! mid = Some t.

Global Instance referenced_dec (m : gmap string JsepTransportPtr)
    (t : JsepTransportPtr) : Decision (referenced m t).
Proof.
  refine (cast_if (decide (map_Exists (λ _ v, v = t) m))).
  - match goal with
    | H : map_Exists _ _ |- _ => destruct H as (k & v & Hk & ->)
    end.
    by exists k.
  - intros [k Hk].
    match goal with H : ¬ _ |- _ => apply H end.
    by exists k, t.
Defined.

(** Every transport the mid map refers to is held in the owning map. *)
Definition mids_reference_owned {W : Type} (c : JsepTransportCollection W) :
    Prop :=
  ∀ mid t, mid_to_transport_ c !! mid = Some t →
           ∃ name, jsep_transports_by_name_ c !! name = Some t.

(** A call of a transaction that leaves the established mapping [M] alone:
    it names a mid that [M] does not map, or it sets a mid to the transport
    that [M] already gives it. *)
Definition leaves_established (M : gmap string JsepTransportPtr)
    (o : MidOp) : Prop :=
  match o with
  | SetOp mid t => M !! mid = None ∨ M !! mid = Some t
  | RemoveOp mid => M !! mid = None
  end.

Global Instance leaves_established_dec (M : gmap string JsepTransportPtr)
    (o : MidOp) : Decision (leaves_established M o).
Proof. destruct o; simpl; apply _. Defined.

(** Phase 1 of rollback on the mid map: every pending mid is detached. *)
Definition detach_all (mids : list string)
    (m : gmap string JsepTransportPtr) : gmap string JsepTransportPtr :=
  filter (λ kv, kv.1 ∉ mids) m.

(** Phase 1 as the collaborator sees it: one removal notice per recorded
    mid, in recorded order. *)
Definition removal_notices (mids : list string) : list Call :=
  (λ mid, MapChange mid nullptr) <$> mids.

Definition after_removal_notices {W : Type}
    (cb : string → JsepTransportPtr → W → bool * W)
    (mids : list string) (w : W) : W :=
  foldl (λ w mid, (cb mid nullptr w).2) w mids.

(** The collaborator never rejects a removal. *)
Definition removal_accepted {W : Type} (c : JsepTransportCollection W) :
    Prop :=
  ∀ mid w, (map_change_callback_ c mid nullptr w).1 = true.

(** Phase 2 of rollback on the owning map: going through the recorded mids
    in order, the transport registered under that name is dropped when the
    mid map [m] no longer references it. *)
Fixpoint reclaim (mids : list string) (m bn : gmap string JsepTransportPtr) :
    gmap string JsepTransportPtr :=
  match mids with
  | [] => bn
  | mid :: rest =>
      reclaim rest m
        (match bn !! mid with
         | Some t =>
             if bool_decide (referenced m t) then bn
             else delete mid bn
         | None => bn
         end)
  end.

(** How many transports phase 2 destroys. *)
Fixpoint destroyed (mids : list string)
    (m bn : gmap string JsepTransportPtr) : nat :=
  match mids with
  | [] => 0
  | mid :: rest =>
      match bn !! mid with
      | Some t =>
          if bool_decide (referenced m t) then destroyed rest m bn
          else S (destroyed rest m (delete mid bn))
      | None => destroyed rest m bn
      end
  end.

Global Instance Call_eq_dec : EqDecision Call.
Proof. solve_decision. Defined.

(** How often a given invocation occurs in a call log. *)
Definition invocations (call : Call) (log : list Call) : nat :=
  length (filter (λ x, x = call) log).

(** ** BundleManager

    [DeleteMid] and [DeleteGroup] are modelled.  [Update] reads a
    [cricket::SessionDescription], which is declared elsewhere, and is left
    out: the properties below hold for any stored list of groups. *)

Module Bundle.

(** Modelled from the spec: [cricket::ContentGroup] is declared in
    pc/session_description.h, which is not part of the sources at hand.  A
    bundle group is an ordered set of mid strings plus a group-kind tag. *)
Record ContentGroup : Type := mkContentGroup {
  semantics_ : string;
  content_names_ : list string
}.

(** Modelled from the spec: [ContentGroup::RemoveContentName] is defined in
    pc/session_description.cc, which is not part of the sources at hand.
    It removes the mid from the group and keeps the order of the others. *)
Definition RemoveContentName (content_name : string) (g : ContentGroup) :
    ContentGroup :=
  mkContentGroup (semantics_ g)
    (filter (λ n, n ≠ content_name) (content_names_ g)).

(** A [const cricket::ContentGroup*]: the address of a group object. *)
Abbreviation ContentGroupPtr := N (only parsing).

(** [bundle_groups_]: each [unique_ptr] is the address of the object it
    owns together with the object stored there. *)
Record BundleManager : Type := mkBundleManager {
  bundle_groups_ : list (ContentGroupPtr * ContentGroup)
}.

Inductive Checked (A : Type) : Type :=
  | Returns (a : A)
  | CheckFailed.
Global Arguments Returns {A} a.
Global Arguments CheckFailed {A}.

(** [std::find_if] with the predicate [bundle_group == group.get()]: the
    position of the first stored group at that address, if there is one. *)
Fixpoint find_if (bundle_group : ContentGroupPtr)
    (groups : list (ContentGroupPtr * ContentGroup)) : option nat :=
  match groups with
  | [] => None
  | group :: rest =>
      if (bundle_group =? group.1)%N then Some 0
      else S <$> find_if bundle_group rest
  end.

Definition DeleteMid (bundle_group : ContentGroupPtr) (mid : string)
    (b : BundleManager) : Checked BundleManager :=
  match find_if bundle_group (bundle_groups_ b) with
  | None => CheckFailed
  | Some bundle_group_it =>
      Returns (mkBundleManager
                 (alter (λ group, (group.1, RemoveContentName mid group.2))
                        bundle_group_it (bundle_groups_ b)))
  end.

Definition DeleteGroup (bundle_group : ContentGroupPtr)
    (b : BundleManager) : Checked BundleManager :=
  match find_if bundle_group (bundle_groups_ b) with
  | None => CheckFailed
  | Some bundle_group_it =>
      Returns (mkBundleManager (delete bundle_group_it (bundle_groups_ b)))
  end.

End Bundle.

(** ** Concrete registries

    Small registries on which the statements below are evaluated.  The
    collaborator has no state of its own here. *)

Definition accept_all : string → JsepTransportPtr → unit → bool * unit :=
  λ _ _ w, (true, w).

(** A collaborator that refuses every addition and accepts every removal. *)
Definition refuse_additions :
    string → JsepTransportPtr → unit → bool * unit :=
  λ _ t w, ((t =? nullptr)%N, w).

Definition no_state : unit → unit := λ w, w.

Definition quiet : Env unit := mkEnv tt [].

(** Between transactions: transports at addresses 5 and 6 are registered
    under the names audio and spare, and the mid audio uses the first. *)
Definition one_stream : JsepTransportCollection unit :=
  mkCollection {[ "audio" := 5%N; "spare" := 6%N ]} {[ "audio" := 5%N ]} []
    accept_all no_state.

Definition one_stream_strict : JsepTransportCollection unit :=
  mkCollection {[ "audio" := 5%N; "spare" := 6%N ]} {[ "audio" := 5%N ]} []
    refuse_additions no_state.

(** Inside a transaction: video and data were attached, video twice. *)
Definition in_transaction : JsepTransportCollection unit :=
  mkCollection {[ "audio" := 5%N; "video" := 6%N ]}
    {[ "audio" := 5%N; "video" := 5%N; "data" := 6%N ]}
    ["video"; "data"; "video"] accept_all no_state.

(** Two mids bundled on the transport registered under the name audio. *)
Definition bundled : JsepTransportCollection unit :=
  mkCollection {[ "audio" := 5%N ]} {[ "audio" := 5%N; "video" := 5%N ]} []
    accept_all no_state.

Definition two_groups : Bundle.BundleManager :=
  Bundle.mkBundleManager
    [ (100%N, Bundle.mkContentGroup "BUNDLE" ["audio"; "video"]);
      (200%N, Bundle.mkContentGroup "BUNDLE" ["data"; "video"]) ].

(** No mid is attached to the null transport. *)
Definition no_null_association {W : Type} (c : JsepTransportCollection W) :
    Prop :=
  ∀ mid, mid_to_transport_ c !! mid ≠ Some nullptr.

(** A collaborator that refuses everything, removals included. *)
Definition refuse_all : string → JsepTransportPtr → unit → bool * unit :=
  λ _ _ w, (false, w).

(** A transaction whose collaborator will not let go of the mid video. *)
Definition stuck_transaction : JsepTransportCollection unit :=
  mkCollection {[ "audio" := 5%N ]} {[ "audio" := 5%N; "video" := 5%N ]}
    ["video"] refuse_all no_state.

(** * Properties *)

(** ** Auxiliary facts about the model *)

Section Facts.

Context {W : Type}.
Implicit Types (c : JsepTransportCollection W) (e : Env W).
Implicit Types (m bn : gmap string JsepTransportPtr).
Local Open Scope op_scope.

Lemma elem_of_std_map_items {V} (m : gmap string V) k v :
  (k, v) ∈ std_map_items m ↔ m !! k = Some v.
Proof.
  unfold std_map_items. rewrite merge_sort_Permutation.
  apply elem_of_map_to_list.
Qed.

Lemma scan_in_use_true t kvs :
  scan_in_use t kvs = true ↔ ∃ k, (k, t) ∈ kvs.
Proof.
  induction kvs as [|[k v] kvs IH]; simpl.
  - split; [done | intros [k Hk]; by apply elem_of_nil in Hk].
  - destruct (N.eqb_spec v t) as [->|Hne].
    + split; [intros _; exists k; left | done].
    + rewrite IH. split; intros [k' Hk'].
      * exists k'. by right.
      * apply elem_of_cons in Hk' as [[= -> ->]|Hk']; [done | by exists k'].
Qed.

Lemma TransportInUse_referenced t c :
  TransportInUse t c = bool_decide (referenced (mid_to_transport_ c) t).
Proof.
  unfold TransportInUse. apply eq_true_iff_eq.
  rewrite scan_in_use_true, bool_decide_eq_true. unfold referenced.
  split; intros [k Hk]; exists k; by apply elem_of_std_map_items.
Qed.

Lemma alter_const_insert m k (old t : JsepTransportPtr) :
  m !! k = Some old → alter (λ _, t) k m = <[k := t]> m.
Proof.
  intros Hk. apply map_eq; intros j. rewrite lookup_alter, lookup_insert.
  destruct (decide (k = j)) as [->|]; [by rewrite Hk | done].
Qed.

Lemma lookup_detach_all mids m k :
  detach_all mids m !! k = if decide (k ∈ mids) then None else m !! k.
Proof.
  unfold detach_all. destruct (decide (k ∈ mids)) as [Hin|Hout].
  - apply map_lookup_filter_None. right. intros v _ Hk. by apply Hk.
  - destruct (m !! k) as [v|] eqn:Hk.
    + by apply map_lookup_filter_Some.
    + apply map_lookup_filter_None. left. done.
Qed.

Lemma detach_all_nil m : detach_all [] m = m.
Proof.
  apply map_eq; intros k. rewrite lookup_detach_all.
  destruct (decide (k ∈ [])) as [Hin|]; [by apply elem_of_nil in Hin | done].
Qed.

Lemma detach_all_cons mid mids m :
  detach_all mids (delete mid m) = detach_all (mid :: mids) m.
Proof.
  apply map_eq; intros k. rewrite !lookup_detach_all, lookup_delete.
  destruct (decide (k ∈ mids)), (decide (k ∈ mid :: mids)) as [Hin|Hout];
    try done.
  - exfalso. apply Hout. by right.
  - apply elem_of_cons in Hin as [->|]; [|done]. by rewrite decide_True.
  - rewrite decide_False; [done|]. intros ->. apply Hout. by left.
Qed.

(** *** What each member function computes *)

Lemma RemoveTransportForMid_eq mid c e :
  RemoveTransportForMid mid c e =
  (if (map_change_callback_ c mid nullptr (world e)).1
   then Done tt (set_mid_to_transport (delete mid) c)
          (mkEnv (map_change_callback_ c mid nullptr (world e)).2
                 (calls e ++ [MapChange mid nullptr]))
   else DcheckFailed).
Proof.
  unfold RemoveTransportForMid, op_bind, invoke_map_change, RTC_DCHECK, modify.
  by destruct (map_change_callback_ c mid nullptr (world e)) as [[] w].
Qed.

Lemma MaybeDestroyJsepTransport_eq mid c e :
  MaybeDestroyJsepTransport mid c e =
  match jsep_transports_by_name_ c !! mid with
  | None => Done tt c e
  | Some t =>
      if bool_decide (referenced (mid_to_transport_ c) t) then Done tt c e
      else Done tt (set_jsep_transports_by_name (delete mid) c)
             (mkEnv (state_change_callback_ c (world e))
                    (calls e ++ [StateChange]))
  end.
Proof.
  unfold MaybeDestroyJsepTransport, op_bind, this.
  destruct (jsep_transports_by_name_ c !! mid) as [t|]; [|done].
  rewrite TransportInUse_referenced.
  by destruct (bool_decide (referenced (mid_to_transport_ c) t)).
Qed.

Lemma SetTransportForMid_eq mid t c e :
  SetTransportForMid mid t c e =
  if (t =? nullptr)%N then DcheckFailed
  else if bool_decide (mid_to_transport_ c !! mid = Some t) then Done true c e
  else Done (map_change_callback_ c mid t (world e)).1
         (mkCollection (jsep_transports_by_name_ c)
            (<[mid := t]> (mid_to_transport_ c)) (pending_mids_ c ++ [mid])
            (map_change_callback_ c) (state_change_callback_ c))
         (mkEnv (map_change_callback_ c mid t (world e)).2
                (calls e ++ [MapChange mid t])).
Proof.
  unfold SetTransportForMid, op_bind, RTC_DCHECK, this.
  destruct (t =? nullptr)%N; simpl; [done|].
  destruct (mid_to_transport_ c !! mid) as [old|] eqn:Hmid.
  - destruct (N.eqb_spec old t) as [->|Hne].
    + by rewrite bool_decide_eq_true_2.
    + rewrite bool_decide_eq_false_2 by congruence.
      unfold modify, invoke_map_change, set_mid_to_transport; simpl.
      rewrite (alter_const_insert _ _ old) by done.
      by destruct (map_change_callback_ c mid t (world e)).
  - rewrite bool_decide_eq_false_2 by congruence.
    unfold modify, invoke_map_change, set_mid_to_transport; simpl.
    by destruct (map_change_callback_ c mid t (world e)).
Qed.

(** *** The two loops of [RollbackTransports] *)

Lemma for_each_RemoveTransportForMid mids c e :
  removal_accepted c →
  for_each RemoveTransportForMid mids c e =
  Done tt (set_mid_to_transport (detach_all mids) c)
    (mkEnv (after_removal_notices (map_change_callback_ c) mids (world e))
           (calls e ++ removal_notices mids)).
Proof.
  intros Hacc. revert c e Hacc.
  induction mids as [|mid mids IH]; intros c e Hacc.
  - destruct c, e; unfold set_mid_to_transport, op_ret; simpl.
    by rewrite detach_all_nil, app_nil_r.
  - simpl. unfold op_bind. rewrite RemoveTransportForMid_eq, Hacc.
    rewrite IH by done. destruct c; unfold set_mid_to_transport; simpl.
    by rewrite detach_all_cons, <- app_assoc.
Qed.

Lemma for_each_MaybeDestroyJsepTransport mids c e :
  for_each MaybeDestroyJsepTransport mids c e =
  Done tt
    (set_jsep_transports_by_name (reclaim mids (mid_to_transport_ c)) c)
    (mkEnv
       (Nat.iter
          (destroyed mids (mid_to_transport_ c) (jsep_transports_by_name_ c))
          (state_change_callback_ c) (world e))
       (calls e ++
        replicate
          (destroyed mids (mid_to_transport_ c) (jsep_transports_by_name_ c))
          StateChange)).
Proof.
  revert c e. induction mids as [|mid mids IH]; intros c e.
  - destruct c, e; unfold set_jsep_transports_by_name, op_ret; simpl.
    by rewrite app_nil_r.
  - unfold set_jsep_transports_by_name in *. simpl. unfold op_bind.
    rewrite MaybeDestroyJsepTransport_eq.
    destruct (jsep_transports_by_name_ c !! mid) as [t|]; [|by rewrite IH].
    destruct (bool_decide (referenced (mid_to_transport_ c) t));
      [by rewrite IH|].
    rewrite IH. destruct c; simpl.
    by rewrite <- Nat.iter_succ_r, <- app_assoc.
Qed.

Lemma RollbackTransports_eq c e :
  removal_accepted c →
  RollbackTransports c e =
  let mids := pending_mids_ c in
  let m := detach_all mids (mid_to_transport_ c) in
  let n := destroyed mids m (jsep_transports_by_name_ c) in
  Done tt
    (mkCollection (reclaim mids m (jsep_transports_by_name_ c)) m []
       (map_change_callback_ c) (state_change_callback_ c))
    (mkEnv
       (Nat.iter n (state_change_callback_ c)
          (after_removal_notices (map_change_callback_ c) mids (world e)))
       (calls e ++ removal_notices mids ++ replicate n StateChange)).
Proof.
  intros Hacc. unfold RollbackTransports, op_bind, this.
  rewrite for_each_RemoveTransportForMid by done.
  rewrite for_each_MaybeDestroyJsepTransport.
  destruct c; unfold modify; simpl. by rewrite <- app_assoc.
Qed.



(** A transport still referenced by the mid map survives phase 2. *)
Lemma reclaim_keeps_referenced mids m bn name t :
  bn !! name = Some t → referenced m t → reclaim mids m bn !! name = Some t.
Proof.
  revert bn. induction mids as [|mid mids IH]; intros bn Hname Href; simpl;
    [done|].
  destruct (bn !! mid) as [t'|] eqn:Hmid; [|by apply IH].
  destruct (bool_decide_reflect (referenced m t')); [by apply IH|].
  apply IH; [|done]. rewrite lookup_delete_ne; [done|].
  intros ->. congruence.
Qed.

End Facts.

(** ** The association operations *)

Section Association.

Context {W : Type}.
Implicit Types (c : JsepTransportCollection W) (e : Env W).
Local Open Scope op_scope.

(** C3.  Setting a mid to the transport it already has succeeds, changes
    neither the maps nor the pending log, and runs no callback.  Hence a
    second identical call directly after a first one returns success and
    leaves the state the first call produced, pending log included. *)
Theorem SetTransportForMid_idempotent c e mid t :
  t ≠ nullptr →
  (mid_to_transport_ c !! mid = Some t →
   SetTransportForMid mid t c e = Done true c e) ∧
  (∃ r c1 e1,
     SetTransportForMid mid t c e = Done r c1 e1 ∧
     SetTransportForMid mid t c1 e1 = Done true c1 e1 ∧
     (_ <- SetTransportForMid mid t ;; SetTransportForMid mid t) c e =
       Done true c1 e1).
Proof.
  intros Hnn. apply N.eqb_neq in Hnn.
  assert (Hsame : ∀ c' e', mid_to_transport_ c' !! mid = Some t →
                           SetTransportForMid mid t c' e' = Done true c' e').
  { intros c' e' Hmid. rewrite SetTransportForMid_eq, Hnn.
    by rewrite bool_decide_eq_true_2. }
  split; [apply Hsame|].
  unfold op_bind. rewrite SetTransportForMid_eq, Hnn.
  destruct (bool_decide_reflect (mid_to_transport_ c !! mid = Some t)).
  - exists true, c, e. by rewrite Hsame.
  - eexists _, _, _. split; [done|].
    rewrite Hsame; [done|]. simpl. apply lookup_insert_eq.
Qed.

(** C4.  Setting a mid to a transport it does not have yet appends the mid
    to the pending log, stores the transport under the mid, runs the
    map-change callback on (mid, transport) and returns what the callback
    returned.  When the callback refuses, the new entry and the new log
    record are still there. *)
Theorem SetTransportForMid_new_association c e mid t :
  t ≠ nullptr →
  mid_to_transport_ c !! mid ≠ Some t →
  let answer := map_change_callback_ c mid t (world e) in
  let c' := mkCollection (jsep_transports_by_name_ c)
              (<[mid := t]> (mid_to_transport_ c)) (pending_mids_ c ++ [mid])
              (map_change_callback_ c) (state_change_callback_ c) in
  SetTransportForMid mid t c e =
    Done answer.1 c' (mkEnv answer.2 (calls e ++ [MapChange mid t])) ∧
  (answer.1 = false →
   ∃ e', SetTransportForMid mid t c e = Done false c' e' ∧
         mid_to_transport_ c' !! mid = Some t ∧
         pending_mids_ c' = pending_mids_ c ++ [mid]).
Proof.
  intros Hnn Hmid answer c'. apply N.eqb_neq in Hnn.
  assert (Heq : SetTransportForMid mid t c e =
                Done answer.1 c' (mkEnv answer.2 (calls e ++ [MapChange mid t]))).
  { rewrite SetTransportForMid_eq, Hnn. by rewrite bool_decide_eq_false_2. }
  split; [done|]. intros Hfalse. rewrite Heq, Hfalse.
  eexists. split; [done|]. split; [apply lookup_insert_eq | done].
Qed.

(** C6.  The destruction check on a name does nothing when no transport is
    registered under it, and nothing when the registered transport is still
    referenced by a mid; otherwise it erases the transport from the owning
    map and runs the state-change callback once.  So when two mids share a
    transport, detaching one of them and running the check, on whatever
    name, leaves the transport registered and the other mid attached. *)
Theorem MaybeDestroyJsepTransport_cases c e mid :
  (jsep_transports_by_name_ c !! mid = None →
   MaybeDestroyJsepTransport mid c e = Done tt c e) ∧
  (∀ t, jsep_transports_by_name_ c !! mid = Some t →
        referenced (mid_to_transport_ c) t →
        TransportInUse t c = true ∧
        MaybeDestroyJsepTransport mid c e = Done tt c e) ∧
  (∀ t, jsep_transports_by_name_ c !! mid = Some t →
        ¬ referenced (mid_to_transport_ c) t →
        TransportInUse t c = false ∧
        MaybeDestroyJsepTransport mid c e =
          Done tt (set_jsep_transports_by_name (delete mid) c)
            (mkEnv (state_change_callback_ c (world e))
                   (calls e ++ [StateChange]))) ∧
  (∀ a b name T,
     a ≠ b →
     mid_to_transport_ c !! a = Some T →
     mid_to_transport_ c !! b = Some T →
     jsep_transports_by_name_ c !! name = Some T →
     (map_change_callback_ c a nullptr (world e)).1 = true →
     ∃ c' e',
       (RemoveTransportForMid a ;; MaybeDestroyJsepTransport mid) c e =
         Done tt c' e' ∧
       jsep_transports_by_name_ c' !! name = Some T ∧
       mid_to_transport_ c' !! b = Some T ∧
       (mid = name → calls e' = calls e ++ [MapChange a nullptr])).
Proof.
  split; [|split; [|split]].
  - intros Hnone. by rewrite MaybeDestroyJsepTransport_eq, Hnone.
  - intros t Hsome Href.
    rewrite MaybeDestroyJsepTransport_eq, TransportInUse_referenced, Hsome.
    by rewrite bool_decide_eq_true_2.
  - intros t Hsome Href.
    rewrite MaybeDestroyJsepTransport_eq, TransportInUse_referenced, Hsome.
    by rewrite bool_decide_eq_false_2.
  - intros a b name T Hab Ha Hb Hname Hacc.
    unfold op_bind. rewrite RemoveTransportForMid_eq, Hacc.
    rewrite MaybeDestroyJsepTransport_eq. simpl.
    assert (Href : referenced (delete a (mid_to_transport_ c)) T).
    { exists b. by rewrite lookup_delete_ne. }
    destruct (jsep_transports_by_name_ c !! mid) as [t|] eqn:Hmid.
    + destruct (bool_decide_reflect
                  (referenced (delete a (mid_to_transport_ c)) t)) as [|Hun].
      * eexists _, _. split; [done|]. simpl.
        by rewrite lookup_delete_ne.
      * eexists _, _. split; [done|]. simpl.
        assert (mid ≠ name) by (intros ->; congruence).
        by rewrite !lookup_delete_ne.
    + eexists _, _. split; [done|]. simpl.
      by rewrite lookup_delete_ne.
Qed.

End Association.

(** ** Transactions: commit and rollback *)

Section Transaction.

Context {W : Type}.
Implicit Types (c : JsepTransportCollection W) (e : Env W).
Implicit Types (m bn : gmap string JsepTransportPtr).
Local Open Scope op_scope.

(** A property of the collection kept by the body is kept by the loop. *)
Lemma for_each_preserves {A} (P : JsepTransportCollection W → Prop)
    (body : A → Op W unit) l :
  (∀ x c e a c' e', P c → body x c e = Done a c' e' → P c') →
  ∀ c e a c' e', P c → for_each body l c e = Done a c' e' → P c'.
Proof.
  intros Hbody. induction l as [|x l IH]; intros c e a c' e' HP; simpl.
  - unfold op_ret. by intros [= _ <- _].
  - unfold op_bind. destruct (body x c e) as [a1 c1 e1|] eqn:Hx; [|done].
    apply IH. by eapply Hbody.
Qed.

Lemma RemoveTransportForMid_Done mid c e a c' e' :
  RemoveTransportForMid mid c e = Done a c' e' →
  c' = set_mid_to_transport (delete mid) c ∧
  calls e' = calls e ++ [MapChange mid nullptr].
Proof.
  rewrite RemoveTransportForMid_eq.
  destruct (map_change_callback_ c mid nullptr (world e)).1; [|done].
  by intros [= _ <- <-].
Qed.

Lemma for_each_RemoveTransportForMid_Done mids c e a c' e' :
  for_each RemoveTransportForMid mids c e = Done a c' e' →
  c' = set_mid_to_transport (detach_all mids) c ∧
  calls e' = calls e ++ removal_notices mids.
Proof.
  revert c e. induction mids as [|mid mids IH]; intros c e; simpl.
  - unfold op_ret. intros [= _ <- <-]. destruct c.
    unfold set_mid_to_transport; simpl. by rewrite detach_all_nil, app_nil_r.
  - unfold op_bind.
    destruct (RemoveTransportForMid mid c e) as [a1 c1 e1|] eqn:Hx; [|done].
    apply RemoveTransportForMid_Done in Hx as [-> Hcalls].
    intros [-> ->]%IH. rewrite Hcalls. destruct c.
    unfold set_mid_to_transport; simpl.
    by rewrite detach_all_cons, <- app_assoc.
Qed.

(** C5.  Rollback runs two passes over the pending log as it stands on
    entry: [RemoveTransportForMid] on every recorded mid in recorded order,
    then [MaybeDestroyJsepTransport] on every recorded mid in the same
    order, and then empties the log.  When the collaborator accepts the
    removals, rollback completes: the mid map has lost every recorded mid,
    the owning map has been swept against that detached mid map, the log is
    empty, and all removal notices precede all state-change notices. *)
Theorem RollbackTransports_two_phases c e :
  let mids := pending_mids_ c in
  RollbackTransports c e =
    (for_each RemoveTransportForMid mids ;;
     for_each MaybeDestroyJsepTransport mids ;;
     modify (set_pending_mids (λ _, []))) c e ∧
  (removal_accepted c →
   ∃ c' e',
     RollbackTransports c e = Done tt c' e' ∧
     pending_mids_ c' = [] ∧
     mid_to_transport_ c' = detach_all mids (mid_to_transport_ c) ∧
     jsep_transports_by_name_ c' =
       reclaim mids (mid_to_transport_ c') (jsep_transports_by_name_ c) ∧
     calls e' =
       calls e ++ removal_notices mids ++
       replicate (destroyed mids (mid_to_transport_ c')
                    (jsep_transports_by_name_ c)) StateChange).
Proof.
  intros mids. split.
  - unfold RollbackTransports, op_bind, this. subst mids.
    destruct (for_each RemoveTransportForMid (pending_mids_ c) c e)
      as [a1 c1 e1|] eqn:Hx; [|done].
    by apply for_each_RemoveTransportForMid_Done in Hx as [-> _].
  - intros Hacc. rewrite RollbackTransports_eq by done.
    by eexists _, _.
Qed.

(** C7.  Commit empties the pending log and touches nothing else: the two
    maps and the stored callbacks stay as they are, and the collaborator
    sees no call.  A rollback directly after a commit changes nothing. *)
Theorem CommitTransports_then_Rollback c e :
  let c1 := mkCollection (jsep_transports_by_name_ c) (mid_to_transport_ c) []
              (map_change_callback_ c) (state_change_callback_ c) in
  CommitTransports c e = Done tt c1 e ∧
  RollbackTransports c1 e = Done tt c1 e ∧
  (CommitTransports ;; RollbackTransports) c e = Done tt c1 e.
Proof. by intros c1. Qed.

(** *** Counting callback invocations *)


Lemma invocations_removal_notices mid mids :
  invocations (MapChange mid nullptr) (removal_notices mids) =
  length (filter (λ x, x = mid) mids).
Proof.
  unfold invocations, removal_notices.
  induction mids as [|x mids IH]; [done|].
  rewrite fmap_cons, !filter_cons. destruct (decide (x = mid)) as [->|Hne].
  - rewrite decide_True by done. cbn [length]. by rewrite IH.
  - rewrite decide_False by congruence. done.
Qed.

Lemma invocations_StateChange_removal_notices mids :
  invocations StateChange (removal_notices mids) = 0.
Proof.
  unfold invocations, removal_notices.
  induction mids as [|x mids IH]; [done|].
  by rewrite fmap_cons, filter_cons, decide_False.
Qed.



(** *** Rollback after a transaction *)

(** One call of a transaction, seen against the established mapping [M]:
    what it keeps and what it spoils. *)
Lemma run_op_established (M : gmap string JsepTransportPtr) o c e :
  removal_accepted c →
  (∀ k, k ∉ pending_mids_ c →
        mid_to_transport_ c !! k = M !! k ∨ mid_to_transport_ c !! k = None) →
  (∀ mid t, o = SetOp mid t → t ≠ nullptr) →
  ∃ c1 e1,
    run_op o c e = Done tt c1 e1 ∧
    removal_accepted c1 ∧
    (∀ k, k ∉ pending_mids_ c1 →
          mid_to_transport_ c1 !! k = M !! k ∨
          mid_to_transport_ c1 !! k = None) ∧
    (∀ k, k ∈ pending_mids_ c ∨ mid_to_transport_ c !! k = None →
          k ∈ pending_mids_ c1 ∨ mid_to_transport_ c1 !! k = None) ∧
    (¬ leaves_established M o →
     is_Some (M !! op_mid o) ∧
     (op_mid o ∈ pending_mids_ c1 ∨
      mid_to_transport_ c1 !! op_mid o = None)) ∧
    (leaves_established M o →
     (∀ k, k ∈ pending_mids_ c → M !! k = None) →
     (∀ k, k ∉ pending_mids_ c → mid_to_transport_ c !! k = M !! k) →
     (∀ k, k ∈ pending_mids_ c1 → M !! k = None) ∧
     (∀ k, k ∉ pending_mids_ c1 → mid_to_transport_ c1 !! k = M !! k)).
Proof.
  intros Hacc Hrest Hnn. destruct o as [mid t|mid]; simpl.
  - unfold op_bind. rewrite SetTransportForMid_eq.
    assert (Ht : (t =? nullptr)%N = false) by (by apply N.eqb_neq, (Hnn mid)).
    rewrite Ht.
    destruct (bool_decide_reflect (mid_to_transport_ c !! mid = Some t))
      as [Hmid|Hmid]; unfold op_ret.
    + exists c, e. split; [done|]. split; [done|]. split; [done|].
      split; [done|]. split; [|done].
      intros Hbad. destruct (M !! mid) as [t0|] eqn:HM; [|by destruct Hbad; left].
      split; [done|]. left.
      destruct (decide (mid ∈ pending_mids_ c)) as [|Hout]; [done|].
      destruct (Hrest mid Hout) as [Heq|Heq]; [|congruence].
      destruct Hbad. right. congruence.
    + eexists _, _. split; [done|]. simpl. split; [done|].
      split; [|split; [|split]].
      * intros k [Hk Hne%not_elem_of_cons]%not_elem_of_app.
        destruct Hne as [Hne _].
        rewrite lookup_insert_ne by done. by apply Hrest.
      * intros k [Hk|Hk].
        -- left. apply elem_of_app. by left.
        -- destruct (decide (k = mid)) as [->|Hne].
           ++ left. apply elem_of_app. right. by left.
           ++ right. by rewrite lookup_insert_ne.
      * intros Hbad. split.
        -- destruct (M !! mid) eqn:HM; [done|]. destruct Hbad. by left.
        -- left. apply elem_of_app. right. by left.
      * intros [HM|HM] Hpend Hsame.
        -- split.
           ++ intros k [Hk| ->%list_elem_of_singleton]%elem_of_app;
                [by apply Hpend | done].
           ++ intros k [Hk Hne%not_elem_of_cons]%not_elem_of_app.
              destruct Hne as [Hne _].
              rewrite lookup_insert_ne by done. by apply Hsame.
        -- destruct Hmid.
           destruct (decide (mid ∈ pending_mids_ c)) as [Hin|Hout].
           ++ rewrite (Hpend mid Hin) in HM. done.
           ++ by rewrite (Hsame mid Hout).
  - rewrite RemoveTransportForMid_eq, Hacc.
    eexists _, _. split; [done|]. simpl. split; [done|].
    split; [|split; [|split]].
    + intros k Hk. destruct (decide (k = mid)) as [->|Hne].
      * right. apply lookup_delete_eq.
      * rewrite lookup_delete_ne by done. by apply Hrest.
    + intros k [Hk|Hk]; [by left|]. right.
      destruct (decide (k = mid)) as [->|Hne];
        [apply lookup_delete_eq | by rewrite lookup_delete_ne].
    + intros Hbad. split.
      * by destruct (M !! mid) eqn:HM.
      * right. apply lookup_delete_eq.
    + intros HM Hpend Hsame. split; [done|].
      intros k Hk. destruct (decide (k = mid)) as [->|Hne].
      * by rewrite lookup_delete_eq.
      * rewrite lookup_delete_ne by done. by apply Hsame.
Qed.

Lemma run_ops_established (M : gmap string JsepTransportPtr) ops c e :
  removal_accepted c →
  (∀ k, k ∉ pending_mids_ c →
        mid_to_transport_ c !! k = M !! k ∨ mid_to_transport_ c !! k = None) →
  (∀ mid t, SetOp mid t ∈ ops → t ≠ nullptr) →
  ∃ c' e',
    for_each run_op ops c e = Done tt c' e' ∧
    removal_accepted c' ∧
    (∀ k, k ∈ pending_mids_ c ∨ mid_to_transport_ c !! k = None →
          k ∈ pending_mids_ c' ∨ mid_to_transport_ c' !! k = None) ∧
    (∀ o, o ∈ ops → ¬ leaves_established M o →
          is_Some (M !! op_mid o) ∧
          (op_mid o ∈ pending_mids_ c' ∨
           mid_to_transport_ c' !! op_mid o = None)) ∧
    ((∀ o, o ∈ ops → leaves_established M o) →
     (∀ k, k ∈ pending_mids_ c → M !! k = None) →
     (∀ k, k ∉ pending_mids_ c → mid_to_transport_ c !! k = M !! k) →
     (∀ k, k ∈ pending_mids_ c' → M !! k = None) ∧
     (∀ k, k ∉ pending_mids_ c' → mid_to_transport_ c' !! k = M !! k)).
Proof.
  revert c e. induction ops as [|o ops IH]; intros c e Hacc Hrest Hnn.
  - exists c, e. split; [done|]. split; [done|]. split; [done|].
    split; [|done]. intros o Ho. by apply elem_of_nil in Ho.
  - destruct (run_op_established M o c e Hacc Hrest)
      as (c1 & e1 & Hrun1 & Hacc1 & Hrest1 & Hkeep1 & Hbad1 & Hgood1).
    { intros mid t ->. apply (Hnn mid). by left. }
    destruct (IH c1 e1 Hacc1 Hrest1)
      as (c' & e' & Hrun & Hacc' & Hkeep & Hbad & Hgood).
    { intros mid t Hin. apply (Hnn mid). by right. }
    exists c', e'. cbn [for_each]. unfold op_bind. rewrite Hrun1.
    split; [done|]. split; [done|]. split; [|split].
    + intros k Hk. by apply Hkeep, Hkeep1.
    + intros o' [->|Ho']%elem_of_cons Hno.
      * destruct (Hbad1 Hno) as [HM Hspoilt]. split; [done|].
        by apply Hkeep.
      * by apply Hbad.
    + intros Hall Hpend Hsame.
      destruct (Hgood1 (Hall o ltac:(by left)) Hpend Hsame) as [Hpend1 Hsame1].
      apply Hgood; [|done..]. intros o' Ho'. apply Hall. by right.
Qed.

(** C1, as the code has it.  Take a transaction that starts with an empty
    pending log and an established mapping, and whose calls pass present
    transports, with a collaborator that accepts removals.  Rollback then
    returns with an empty log, and it restores the established mapping
    exactly when every call of the transaction leaves that mapping alone:
    the call names a mid the mapping does not map, or it sets a mid to the
    transport the mapping already gives it. *)
Theorem RollbackTransports_restores_established c e ops :
  pending_mids_ c = [] →
  removal_accepted c →
  (∀ mid t, SetOp mid t ∈ ops → t ≠ nullptr) →
  ∃ c' e',
    (for_each run_op ops ;; RollbackTransports) c e = Done tt c' e' ∧
    pending_mids_ c' = [] ∧
    ((∀ o, o ∈ ops → leaves_established (mid_to_transport_ c) o) →
     mid_to_transport_ c' = mid_to_transport_ c) ∧
    (mid_to_transport_ c' = mid_to_transport_ c →
     ∀ o, o ∈ ops → leaves_established (mid_to_transport_ c) o).
Proof.
  intros Hempty Hacc Hnn.
  destruct (run_ops_established (mid_to_transport_ c) ops c e)
    as (c1 & e1 & Hrun & Hacc1 & _ & Hbad & Hgood); try done.
  { intros k _. by left. }
  unfold op_bind. rewrite Hrun, RollbackTransports_eq by done.
  eexists _, _. split; [done|]. simpl. split; [done|]. split.
  - intros Hall. destruct (Hgood Hall) as [Hpend Hsame].
    { rewrite Hempty. intros k Hk. by apply elem_of_nil in Hk. }
    { done. }
    apply map_eq; intros k. rewrite lookup_detach_all.
    destruct (decide (k ∈ pending_mids_ c1));
      [by rewrite Hpend | by apply Hsame].
  - intros Heq o Ho.
    destruct (decide (leaves_established (mid_to_transport_ c) o))
      as [|Hno]; [done|].
    destruct (Hbad o Ho Hno) as [[t0 HM] Hspoilt].
    apply (f_equal (λ m, m !! op_mid o)) in Heq.
    rewrite lookup_detach_all, HM in Heq.
    destruct (decide (op_mid o ∈ pending_mids_ c1)) as [|Hout]; [done|].
    destruct Hspoilt as [|Hnone]; [done | congruence].
Qed.

End Transaction.

(** ** Ownership: which transports the mid map may refer to *)

Section Ownership.

Context {W : Type}.
Implicit Types (c : JsepTransportCollection W) (e : Env W).
Local Open Scope op_scope.

Lemma notify_each_eq (l : list (string * JsepTransportPtr)) c e :
  for_each (λ jsep_transport,
              _ <- invoke_map_change jsep_transport.1 nullptr ;; op_ret tt)
           l c e =
  Done tt c
    (mkEnv (after_removal_notices (map_change_callback_ c) l.*1 (world e))
           (calls e ++ removal_notices l.*1)).
Proof.
  revert e. induction l as [|[name t] l IH]; intros e.
  - destruct e; unfold op_ret; simpl. by rewrite app_nil_r.
  - cbn [for_each]. unfold op_bind at 1. unfold op_bind at 1.
    unfold invoke_map_change, op_ret.
    destruct (map_change_callback_ c (name, t).1 nullptr (world e))
      as [ret w] eqn:Hcb.
    rewrite IH. simpl in *. rewrite Hcb. simpl. by rewrite <- app_assoc.
Qed.

Lemma DestroyAllTransports_eq c e :
  DestroyAllTransports c e =
  let names := (std_map_items (jsep_transports_by_name_ c)).*1 in
  Done tt (set_jsep_transports_by_name (λ _, ∅) c)
    (mkEnv (after_removal_notices (map_change_callback_ c) names (world e))
           (calls e ++ removal_notices names)).
Proof.
  unfold DestroyAllTransports, op_bind, this. by rewrite notify_each_eq.
Qed.

Lemma RegisterTransport_owned name t c e a c' e' :
  (∀ old, jsep_transports_by_name_ c !! name = Some old →
          ¬ referenced (mid_to_transport_ c) old) →
  mids_reference_owned c →
  RegisterTransport name t c e = Done a c' e' →
  mids_reference_owned c'.
Proof.
  intros Hold Hinv [= _ <- _] mid t' Hmid; simpl in *.
  destruct (Hinv mid t' Hmid) as [n Hn].
  destruct (decide (n = name)) as [->|Hne].
  - destruct (Hold t' Hn). by exists mid.
  - exists n. by rewrite lookup_insert_ne.
Qed.

Lemma SetTransportForMid_owned mid t c e r c' e' :
  mids_reference_owned c →
  SetTransportForMid mid t c e = Done r c' e' →
  (mids_reference_owned c' ↔
   ∃ name, jsep_transports_by_name_ c !! name = Some t).
Proof.
  intros Hinv. rewrite SetTransportForMid_eq.
  destruct (t =? nullptr)%N; [done|].
  destruct (bool_decide_reflect (mid_to_transport_ c !! mid = Some t))
    as [Hmid|Hmid].
  - intros [= _ <- _]. split; [intros _; by apply (Hinv mid) | done].
  - intros [= _ <- _]. split.
    + intros Hinv'. apply (Hinv' mid t). simpl. apply lookup_insert_eq.
    + intros Hown k t'; simpl. rewrite lookup_insert.
      destruct (decide (mid = k)) as [->|Hne]; [by intros [= <-] | apply Hinv].
Qed.

Lemma RemoveTransportForMid_owned mid c e a c' e' :
  mids_reference_owned c →
  RemoveTransportForMid mid c e = Done a c' e' →
  mids_reference_owned c'.
Proof.
  intros Hinv [-> _]%RemoveTransportForMid_Done k t; simpl.
  intros [_ Hk]%lookup_delete_Some. by apply (Hinv k).
Qed.

Lemma MaybeDestroyJsepTransport_owned mid c e a c' e' :
  mids_reference_owned c →
  MaybeDestroyJsepTransport mid c e = Done a c' e' →
  mids_reference_owned c'.
Proof.
  intros Hinv. rewrite MaybeDestroyJsepTransport_eq.
  destruct (jsep_transports_by_name_ c !! mid) as [t|] eqn:Hmid;
    [|by intros [= _ <- _]].
  destruct (bool_decide_reflect (referenced (mid_to_transport_ c) t))
    as [|Hun]; [by intros [= _ <- _]|].
  intros [= _ <- _] k t' Hk; simpl in *.
  destruct (Hinv k t' Hk) as [n Hn]. exists n.
  rewrite lookup_delete_ne; [done|]. intros ->.
  apply Hun. exists k. congruence.
Qed.

Lemma RollbackTransports_owned c e a c' e' :
  mids_reference_owned c →
  RollbackTransports c e = Done a c' e' →
  mids_reference_owned c'.
Proof.
  intros Hinv. unfold RollbackTransports, op_bind, this, modify.
  destruct (for_each RemoveTransportForMid _ c e) as [a1 c1 e1|] eqn:H1;
    [|done].
  destruct (for_each MaybeDestroyJsepTransport _ c1 e1) as [a2 c2 e2|] eqn:H2;
    [|done].
  intros [= _ <- _].
  assert (mids_reference_owned c2) as Hinv2; [|exact Hinv2].
  eapply (for_each_preserves mids_reference_owned); [|..|exact H2].
  { intros. by eapply MaybeDestroyJsepTransport_owned. }
  eapply (for_each_preserves mids_reference_owned); [|..|exact H1]; [|done].
  intros. by eapply RemoveTransportForMid_owned.
Qed.

(** C2, as the code has it.  Starting from a registry whose mid map refers
    only to owned transports: removing a mid, the destruction check,
    rollback and commit keep it so; setting a mid keeps it so exactly when
    the transport passed is an owned one; registering keeps it so when the
    name is fresh or the transport replaced is referenced by no mid; and
    full teardown, which empties the owning map and leaves the mid map
    alone, ends in such a registry exactly when the mid map is empty. *)
Theorem ownership_invariant_preservation c e :
  mids_reference_owned c →
  (∀ name t a c' e',
     (∀ old, jsep_transports_by_name_ c !! name = Some old →
             ¬ referenced (mid_to_transport_ c) old) →
     RegisterTransport name t c e = Done a c' e' → mids_reference_owned c') ∧
  (∀ mid t r c' e',
     SetTransportForMid mid t c e = Done r c' e' →
     (mids_reference_owned c' ↔
      ∃ name, jsep_transports_by_name_ c !! name = Some t)) ∧
  (∃ c' e', DestroyAllTransports c e = Done tt c' e' ∧
            jsep_transports_by_name_ c' = ∅ ∧
            mid_to_transport_ c' = mid_to_transport_ c ∧
            (mids_reference_owned c' ↔ mid_to_transport_ c = ∅)) ∧
  (∀ mid a c' e',
     RemoveTransportForMid mid c e = Done a c' e' → mids_reference_owned c') ∧
  (∀ mid a c' e',
     MaybeDestroyJsepTransport mid c e = Done a c' e' →
     mids_reference_owned c') ∧
  (∀ a c' e', RollbackTransports c e = Done a c' e' → mids_reference_owned c') ∧
  (∀ a c' e', CommitTransports c e = Done a c' e' → mids_reference_owned c').
Proof.
  intros Hinv. repeat apply conj.
  - intros. by eapply RegisterTransport_owned.
  - intros. by eapply SetTransportForMid_owned.
  - rewrite DestroyAllTransports_eq. eexists _, _.
    split; [done|]. split; [done|]. split; [done|]. simpl. split.
    + intros Hinv'. apply map_empty; intros k.
      destruct (mid_to_transport_ c !! k) as [t|] eqn:Hk; [|done].
      destruct (Hinv' k t Hk) as [n Hn]. simpl in Hn.
      by rewrite lookup_empty in Hn.
    + intros Hempty k t; simpl. by rewrite Hempty, lookup_empty.
  - intros. by eapply RemoveTransportForMid_owned.
  - intros. by eapply MaybeDestroyJsepTransport_owned.
  - intros. by eapply RollbackTransports_owned.
  - by intros a c' e' [= _ <- _].
Qed.

End Ownership.

(** ** Which operations detach a mid *)

Section Detaching.

Context {W : Type}.
Implicit Types (c : JsepTransportCollection W) (e : Env W).
Local Open Scope op_scope.

(** C9.  Setting a mid to no transport fails the contract check in every
    state, so it never clears an association.  Registering, full teardown,
    setting, the destruction check and commit leave every attached mid
    attached.  Only [RemoveTransportForMid] erases an entry of the mid map,
    and rollback changes the mid map by nothing but its calls of it. *)
Theorem associations_removed_only_by_RemoveTransportForMid c e :
  (∀ mid, SetTransportForMid mid nullptr c e = DcheckFailed) ∧
  (∀ k, is_Some (mid_to_transport_ c !! k) →
     (∀ name t a c' e', RegisterTransport name t c e = Done a c' e' →
                        is_Some (mid_to_transport_ c' !! k)) ∧
     (∀ a c' e', DestroyAllTransports c e = Done a c' e' →
                 is_Some (mid_to_transport_ c' !! k)) ∧
     (∀ mid t r c' e', SetTransportForMid mid t c e = Done r c' e' →
                       is_Some (mid_to_transport_ c' !! k)) ∧
     (∀ mid a c' e', MaybeDestroyJsepTransport mid c e = Done a c' e' →
                     is_Some (mid_to_transport_ c' !! k)) ∧
     (∀ a c' e', CommitTransports c e = Done a c' e' →
                 is_Some (mid_to_transport_ c' !! k))) ∧
  (∀ mid a c' e', RemoveTransportForMid mid c e = Done a c' e' →
                  mid_to_transport_ c' = delete mid (mid_to_transport_ c)) ∧
  (∀ a c' e', RollbackTransports c e = Done a c' e' →
     ∃ c1 e1,
       for_each RemoveTransportForMid (pending_mids_ c) c e = Done tt c1 e1 ∧
       mid_to_transport_ c' = mid_to_transport_ c1).
Proof.
  repeat apply conj.
  - intros mid. by rewrite SetTransportForMid_eq.
  - intros k Hk. repeat apply conj.
    + by intros name t a c' e' [= _ <- _].
    + intros a c' e'. rewrite DestroyAllTransports_eq. by intros [= _ <- _].
    + intros mid t r c' e'. rewrite SetTransportForMid_eq.
      destruct (t =? nullptr)%N; [done|].
      destruct (bool_decide (mid_to_transport_ c !! mid = Some t)).
      * by intros [= _ <- _].
      * intros [= _ <- _]; simpl. rewrite lookup_insert_is_Some.
        destruct (decide (mid = k)); [by left | by right].
    + intros mid a c' e'. rewrite MaybeDestroyJsepTransport_eq.
      destruct (jsep_transports_by_name_ c !! mid) as [t|];
        [|by intros [= _ <- _]].
      destruct (bool_decide (referenced (mid_to_transport_ c) t));
        by intros [= _ <- _].
    + by intros a c' e' [= _ <- _].
  - by intros mid a c' e' [-> _]%RemoveTransportForMid_Done.
  - intros a c' e'. unfold RollbackTransports, op_bind, this, modify.
    destruct (for_each RemoveTransportForMid _ c e) as [[] c1 e1|] eqn:H1;
      [|done].
    rewrite for_each_MaybeDestroyJsepTransport. intros [= _ <- _].
    by exists c1, e1.
Qed.

End Detaching.

(** ** Bundle groups are edited by identity *)

Section BundleGroups.

Import Bundle.
Implicit Types (groups : list (N * ContentGroup)).

Lemma find_if_Some bundle_group groups i :
  find_if bundle_group groups = Some i →
  (∃ g, groups !! i = Some (bundle_group, g)) ∧
  (∀ j x, j < i → groups !! j = Some x → x.1 ≠ bundle_group).
Proof.
  revert i. induction groups as [|[h g] groups IH]; intros i; simpl; [done|].
  destruct (N.eqb_spec bundle_group h) as [->|Hne].
  - intros [= <-]. split; [by exists g | intros; lia].
  - destruct (find_if bundle_group groups) as [i'|]; [|done].
    intros [= <-]. destruct (IH i' eq_refl) as [Hat Hbefore].
    split; [done|]. intros [|j] x Hj; simpl.
    + by intros [= <-].
    + apply Hbefore. lia.
Qed.

Lemma find_if_None bundle_group groups :
  find_if bundle_group groups = None ↔ bundle_group ∉ groups.*1.
Proof.
  induction groups as [|[h g] groups IH]; simpl.
  - split; [intros _ Hin; by apply elem_of_nil in Hin | done].
  - rewrite not_elem_of_cons, <- IH.
    destruct (N.eqb_spec bundle_group h) as [->|Hne].
    + split; [done | by intros [? _]].
    + destruct (find_if bundle_group groups); simpl; split; try done.
      by intros [_ ?].
Qed.

(** C8.  When the handle is the address of a stored group, [DeleteMid]
    takes the mid out of the (first) group stored at that address and
    leaves every other stored group as it was.  When no stored group has
    that address, [DeleteMid] and [DeleteGroup] fail the contract check. *)
Theorem DeleteMid_scoped (b : BundleManager) bundle_group mid :
  (bundle_group ∈ (bundle_groups_ b).*1 →
   ∃ i g b',
     bundle_groups_ b !! i = Some (bundle_group, g) ∧
     (∀ j x, j < i → bundle_groups_ b !! j = Some x → x.1 ≠ bundle_group) ∧
     DeleteMid bundle_group mid b = Returns b' ∧
     bundle_groups_ b' !! i = Some (bundle_group, RemoveContentName mid g) ∧
     (mid ∉ content_names_ (RemoveContentName mid g)) ∧
     (∀ n, n ≠ mid → (n ∈ content_names_ (RemoveContentName mid g) ↔
                       n ∈ content_names_ g)) ∧
     length (bundle_groups_ b') = length (bundle_groups_ b) ∧
     (∀ j, j ≠ i → bundle_groups_ b' !! j = bundle_groups_ b !! j)) ∧
  (bundle_group ∉ (bundle_groups_ b).*1 →
   DeleteMid bundle_group mid b = CheckFailed ∧
   DeleteGroup bundle_group b = CheckFailed).
Proof.
  split.
  - intros Hin. unfold DeleteMid.
    destruct (find_if bundle_group (bundle_groups_ b)) as [i|] eqn:Hfind.
    + destruct (find_if_Some _ _ _ Hfind) as [[g Hg] Hbefore].
      exists i, g. eexists. split; [done|]. split; [done|]. split; [done|].
      simpl. repeat apply conj.
      * by rewrite list_lookup_alter_eq, Hg.
      * unfold RemoveContentName; simpl. rewrite list_elem_of_filter.
        by intros [? _].
      * intros n Hn. unfold RemoveContentName; simpl.
        rewrite list_elem_of_filter. split; [by intros [_ ?] | by split].
      * apply length_alter.
      * intros j Hj. by rewrite list_lookup_alter_ne.
    + by apply find_if_None in Hfind.
  - intros Hout. apply find_if_None in Hout.
    unfold DeleteMid, DeleteGroup. by rewrite Hout.
Qed.

End BundleGroups.

(** * The statements at concrete registries *)

Local Open Scope op_scope.

Lemma accept_all_removal_accepted bn m pend scb :
  removal_accepted (mkCollection bn m pend accept_all scb).
Proof. intros mid w. reflexivity. Defined.

(** C1 as stated fails: a mid that the established mapping attaches to one
    transport and the transaction re-attaches to another is erased by
    rollback, not put back; a mid removed in the transaction stays removed. *)
Lemma RollbackTransports_forgets_established_mapping :
  pending_mids_ one_stream = [] ∧
  (∃ c' e',
     (for_each run_op [SetOp "audio" 6%N] ;; RollbackTransports)
       one_stream quiet = Done tt c' e' ∧
     mid_to_transport_ one_stream !! "audio" = Some 5%N ∧
     mid_to_transport_ c' !! "audio" = None ∧
     mid_to_transport_ c' ≠ mid_to_transport_ one_stream) ∧
  (∃ c' e',
     (for_each run_op [RemoveOp "audio"] ;; RollbackTransports)
       one_stream quiet = Done tt c' e' ∧
     mid_to_transport_ c' !! "audio" = None ∧
     mid_to_transport_ c' ≠ mid_to_transport_ one_stream).
Proof.
  split; [reflexivity|]. split.
  - exists (mkCollection {[ "spare" := 6%N ]} ∅ [] accept_all no_state).
    eexists. split; [vm_compute; reflexivity|].
    split; [reflexivity|]. split; [reflexivity|].
    intros Heq. apply (f_equal (λ m, m !! "audio")) in Heq. discriminate Heq.
  - exists (mkCollection {[ "audio" := 5%N; "spare" := 6%N ]} ∅ []
              accept_all no_state).
    eexists. split; [vm_compute; reflexivity|].
    split; [reflexivity|].
    intros Heq. apply (f_equal (λ m, m !! "audio")) in Heq. discriminate Heq.
Qed.

Lemma RollbackTransports_restores_established_witness :
  ∃ c' e',
    (for_each run_op [SetOp "audio" 5%N; SetOp "video" 5%N; RemoveOp "data";
                      SetOp "video" 6%N] ;;
     RollbackTransports) one_stream quiet = Done tt c' e' ∧
    pending_mids_ c' = [] ∧
    mid_to_transport_ c' = mid_to_transport_ one_stream.
Proof.
  destruct (RollbackTransports_restores_established one_stream quiet
              [SetOp "audio" 5%N; SetOp "video" 5%N; RemoveOp "data";
               SetOp "video" 6%N])
    as (c' & e' & Hrun & Hpend & Hrestores & _).
  - reflexivity.
  - apply accept_all_removal_accepted.
  - intros mid t Hin.
    repeat (apply elem_of_cons in Hin as [Heq|Hin];
            [by (discriminate Heq || (injection Heq as -> ->))|]).
    by apply elem_of_nil in Hin.
  - exists c', e'. split; [done|]. split; [done|]. apply Hrestores.
    intros o Ho.
    apply elem_of_cons in Ho as [->|Ho]; [by right|].
    apply elem_of_cons in Ho as [->|Ho]; [by left|].
    apply elem_of_cons in Ho as [->|Ho]; [reflexivity|].
    apply elem_of_cons in Ho as [->|Ho]; [by left|].
    by apply elem_of_nil in Ho.
Defined.

Lemma one_stream_owned : mids_reference_owned one_stream.
Proof.
  intros mid t Hmid. unfold one_stream in Hmid. cbn [mid_to_transport_] in Hmid.
  apply lookup_singleton_Some in Hmid as [<- <-]. by exists "audio".
Qed.

(** C2 as stated fails: full teardown, registering over a name whose
    transport is still referenced, and setting a mid to a transport that
    the registry does not hold each leave the mid map referring to a
    transport that is not in the owning map. *)
Lemma ownership_invariant_broken :
  mids_reference_owned one_stream ∧
  (∃ c' e', DestroyAllTransports one_stream quiet = Done tt c' e' ∧
            ¬ mids_reference_owned c') ∧
  (∃ c' e', RegisterTransport "audio" 7%N one_stream quiet = Done tt c' e' ∧
            ¬ mids_reference_owned c') ∧
  (∃ c' e', SetTransportForMid "video" 9%N one_stream quiet = Done true c' e' ∧
            ¬ mids_reference_owned c').
Proof.
  split; [apply one_stream_owned|]. repeat apply conj.
  - exists (mkCollection ∅ {[ "audio" := 5%N ]} [] accept_all no_state).
    eexists. split; [vm_compute; reflexivity|].
    intros Hinv. destruct (Hinv "audio" 5%N eq_refl) as [name Hname].
    cbn [jsep_transports_by_name_] in Hname. by rewrite lookup_empty in Hname.
  - exists (mkCollection {[ "audio" := 7%N; "spare" := 6%N ]}
              {[ "audio" := 5%N ]} [] accept_all no_state).
    eexists. split; [vm_compute; reflexivity|].
    intros Hinv. destruct (Hinv "audio" 5%N eq_refl) as [name Hname].
    cbn [jsep_transports_by_name_] in Hname.
    apply lookup_insert_Some in Hname as [[_ [=]]|[_ Hname]].
    by apply lookup_singleton_Some in Hname as [_ [=]].
  - exists (mkCollection {[ "audio" := 5%N; "spare" := 6%N ]}
              {[ "audio" := 5%N; "video" := 9%N ]} ["video"]
              accept_all no_state).
    eexists. split; [vm_compute; reflexivity|].
    intros Hinv. destruct (Hinv "video" 9%N eq_refl) as [name Hname].
    cbn [jsep_transports_by_name_] in Hname.
    apply lookup_insert_Some in Hname as [[_ [=]]|[_ Hname]].
    by apply lookup_singleton_Some in Hname as [_ [=]].
Qed.

Lemma in_transaction_owned : mids_reference_owned in_transaction.
Proof.
  intros mid t Hmid. unfold in_transaction in Hmid.
  cbn [mid_to_transport_] in Hmid.
  apply lookup_insert_Some in Hmid as [[_ <-]|[_ Hmid]]; [by exists "audio"|].
  apply lookup_insert_Some in Hmid as [[_ <-]|[_ Hmid]]; [by exists "audio"|].
  apply lookup_singleton_Some in Hmid as [_ <-]. by exists "video".
Defined.

Lemma in_transaction_fresh_name old :
  jsep_transports_by_name_ in_transaction !! "data" = Some old →
  ¬ referenced (mid_to_transport_ in_transaction) old.
Proof. intros Hold. discriminate Hold. Defined.

Lemma ownership_invariant_preservation_witness :
  mids_reference_owned in_transaction ∧
  mids_reference_owned
    (mkCollection {[ "audio" := 5%N ]} {[ "audio" := 5%N ]} []
       accept_all no_state) ∧
  mids_reference_owned
    (mkCollection {[ "audio" := 5%N; "video" := 6%N ]}
       {[ "audio" := 5%N; "video" := 6%N; "data" := 6%N ]}
       ["video"; "data"; "video"; "video"] accept_all no_state) ∧
  mids_reference_owned
    (set_jsep_transports_by_name <["data" := 7%N]> in_transaction).
Proof.
  pose proof (ownership_invariant_preservation in_transaction quiet
                in_transaction_owned)
    as (Hregister & Hset & _ & _ & _ & Hrollback & _).
  split; [apply in_transaction_owned|]. split; [|split].
  - apply (Hrollback tt _
             {| world := tt;
                calls := [MapChange "video" nullptr; MapChange "data" nullptr;
                          MapChange "video" nullptr; StateChange] |}).
    vm_compute. reflexivity.
  - apply (Hset "video" 6%N true _
             {| world := tt; calls := [MapChange "video" 6%N] |}).
    + vm_compute. reflexivity.
    + by exists "video".
  - apply (Hregister "data" 7%N tt _ quiet in_transaction_fresh_name).
    reflexivity.
Defined.

Lemma SetTransportForMid_idempotent_witness :
  5%N ≠ nullptr ∧
  mid_to_transport_ one_stream !! "audio" = Some 5%N ∧
  SetTransportForMid "audio" 5%N one_stream quiet = Done true one_stream quiet.
Proof.
  assert (Hnn : 5%N ≠ nullptr) by done.
  split; [done|]. split; [reflexivity|].
  apply (proj1 (SetTransportForMid_idempotent one_stream quiet "audio" 5%N Hnn)).
  reflexivity.
Defined.

Lemma SetTransportForMid_new_association_witness :
  6%N ≠ nullptr ∧
  mid_to_transport_ one_stream_strict !! "video" ≠ Some 6%N ∧
  SetTransportForMid "video" 6%N one_stream_strict quiet =
    Done false
      (mkCollection {[ "audio" := 5%N; "spare" := 6%N ]}
         (<["video" := 6%N]> {[ "audio" := 5%N ]}) ["video"]
         refuse_additions no_state)
      (mkEnv tt [MapChange "video" 6%N]).
Proof.
  assert (Hnn : 6%N ≠ nullptr) by done.
  assert (Hnew : mid_to_transport_ one_stream_strict !! "video" ≠ Some 6%N)
    by done.
  split; [done|]. split; [done|].
  exact (proj1 (SetTransportForMid_new_association one_stream_strict quiet
                  "video" 6%N Hnn Hnew)).
Defined.

Lemma RollbackTransports_two_phases_witness :
  removal_accepted in_transaction ∧
  ∃ c' e',
    RollbackTransports in_transaction quiet = Done tt c' e' ∧
    pending_mids_ c' = [] ∧
    mid_to_transport_ c' = {[ "audio" := 5%N ]} ∧
    calls e' = [MapChange "video" nullptr; MapChange "data" nullptr;
                MapChange "video" nullptr; StateChange].
Proof.
  split; [apply accept_all_removal_accepted|].
  destruct (proj2 (RollbackTransports_two_phases in_transaction quiet)
              (accept_all_removal_accepted _ _ _ _))
    as (c' & e' & Hrun & Hpend & Hm & Hbn & Hcalls).
  exists c', e'. split; [done|]. split; [done|].
  rewrite Hcalls, Hm. split; vm_compute; reflexivity.
Defined.

Lemma one_stream_spare_unreferenced :
  ¬ referenced (mid_to_transport_ one_stream) 6%N.
Proof.
  intros [k Hk]. unfold one_stream in Hk. cbn [mid_to_transport_] in Hk.
  by apply lookup_singleton_Some in Hk as [_ [=]].
Defined.

Lemma MaybeDestroyJsepTransport_cases_witness :
  MaybeDestroyJsepTransport "video" bundled quiet = Done tt bundled quiet ∧
  MaybeDestroyJsepTransport "audio" bundled quiet = Done tt bundled quiet ∧
  MaybeDestroyJsepTransport "spare" one_stream quiet =
    Done tt (set_jsep_transports_by_name (delete "spare") one_stream)
      (mkEnv tt [StateChange]) ∧
  ∃ c' e',
    (RemoveTransportForMid "video" ;; MaybeDestroyJsepTransport "audio")
      bundled quiet = Done tt c' e' ∧
    jsep_transports_by_name_ c' !! "audio" = Some 5%N ∧
    mid_to_transport_ c' !! "audio" = Some 5%N ∧
    calls e' = [MapChange "video" nullptr].
Proof.
  split; [|split; [|split]].
  - apply (MaybeDestroyJsepTransport_cases bundled quiet "video"). reflexivity.
  - destruct (MaybeDestroyJsepTransport_cases bundled quiet "audio")
      as (_ & Hused & _).
    apply (Hused 5%N); [reflexivity|]. by exists "audio".
  - destruct (MaybeDestroyJsepTransport_cases one_stream quiet "spare")
      as (_ & _ & Hfree & _).
    apply (Hfree 6%N); [reflexivity|]. apply one_stream_spare_unreferenced.
  - destruct (MaybeDestroyJsepTransport_cases bundled quiet "audio")
      as (_ & _ & _ & Hshared).
    assert (Hne : "video" ≠ "audio") by (intros Heq; discriminate Heq).
    destruct (Hshared "video" "audio" "audio" 5%N Hne eq_refl eq_refl eq_refl
                eq_refl)
      as (c' & e' & Hrun & Hbn & Hm & Hcalls).
    exists c', e'. split; [done|]. split; [done|]. split; [done|].
    by rewrite Hcalls.
Defined.

Lemma DeleteMid_scoped_witness :
  200%N ∈ (Bundle.bundle_groups_ two_groups).*1 ∧
  (300%N ∉ (Bundle.bundle_groups_ two_groups).*1) ∧
  (∃ i g b',
     Bundle.bundle_groups_ two_groups !! i = Some (200%N, g) ∧
     Bundle.DeleteMid 200%N "video" two_groups = Bundle.Returns b' ∧
     Bundle.bundle_groups_ b' !! i =
       Some (200%N, Bundle.RemoveContentName "video" g) ∧
     ∀ j, j ≠ i →
          Bundle.bundle_groups_ b' !! j = Bundle.bundle_groups_ two_groups !! j) ∧
  Bundle.DeleteMid 300%N "video" two_groups = Bundle.CheckFailed ∧
  Bundle.DeleteGroup 300%N two_groups = Bundle.CheckFailed.
Proof.
  assert (Hin : 200%N ∈ (Bundle.bundle_groups_ two_groups).*1).
  { apply list_elem_of_lookup. by exists 1. }
  assert (Hout : 300%N ∉ (Bundle.bundle_groups_ two_groups).*1).
  { intros Hbad. cbn in Hbad.
    repeat (apply elem_of_cons in Hbad as [Hbad|Hbad]; [discriminate Hbad|]).
    by apply elem_of_nil in Hbad. }
  split; [done|]. split; [done|]. split.
  - destruct (proj1 (DeleteMid_scoped two_groups 200%N "video") Hin)
      as (i & g & b' & Hi & _ & Hrun & Hnew & _ & _ & _ & Hframe).
    by exists i, g, b'.
  - exact (proj2 (DeleteMid_scoped two_groups 300%N "video") Hout).
Defined.

Lemma associations_removed_only_by_RemoveTransportForMid_witness :
  SetTransportForMid "audio" nullptr one_stream quiet = DcheckFailed ∧
  is_Some (mid_to_transport_ one_stream !! "audio") ∧
  is_Some
    (mid_to_transport_
       (mkCollection ∅ {[ "audio" := 5%N ]} [] accept_all no_state)
     !! "audio") ∧
  mid_to_transport_
    (mkCollection {[ "audio" := 5%N; "spare" := 6%N ]} ∅ []
       accept_all no_state) =
  delete "audio" (mid_to_transport_ one_stream).
Proof.
  destruct (associations_removed_only_by_RemoveTransportForMid
              one_stream quiet) as (Hnull & Hkeep & Hremove & _).
  assert (Hsome : is_Some (mid_to_transport_ one_stream !! "audio"))
    by (by exists 5%N).
  split; [apply Hnull|]. split; [done|]. split.
  - destruct (Hkeep "audio" Hsome) as (_ & Hteardown & _).
    apply (Hteardown tt _ {| world := tt; calls := [MapChange "audio" nullptr;
                                                   MapChange "spare" nullptr] |}).
    vm_compute. reflexivity.
  - apply (Hremove "audio" tt _
             {| world := tt; calls := [MapChange "audio" nullptr] |}).
    vm_compute. reflexivity.
Defined.


(** * Further properties of the registry *)

(** ** Lookups after updates *)

Section Lookups.

Context {W : Type}.
Implicit Types (c : JsepTransportCollection W) (e : Env W).

Global Instance key_le_total {V : Type} : Total (@key_le V).
Proof. intros a b. apply String.leb_total. Qed.

Lemma length_std_map_items {V} (m : gmap string V) :
  length (std_map_items m) = size m.
Proof.
  unfold std_map_items. rewrite merge_sort_Permutation.
  apply length_map_to_list.
Qed.

Lemma NoDup_std_map_items_names {V} (m : gmap string V) :
  NoDup (std_map_items m).*1.
Proof.
  unfold std_map_items. rewrite merge_sort_Permutation.
  apply NoDup_fst_map_to_list.
Qed.

Lemma elem_of_std_map_items_names {V} (m : gmap string V) name :
  name ∈ (std_map_items m).*1 ↔ is_Some (m !! name).
Proof.
  rewrite list_elem_of_fmap. split.
  - intros ([k v] & -> & Hin). apply elem_of_std_map_items in Hin. by exists v.
  - intros [v Hv]. exists (name, v). split; [done|].
    by apply elem_of_std_map_items.
Qed.

Lemma TransportInUse_true t c :
  TransportInUse t c = true ↔ ∃ mid, mid_to_transport_ c !! mid = Some t.
Proof.
  rewrite TransportInUse_referenced, bool_decide_eq_true. done.
Qed.

(** X1.  The scan of [TransportInUse] answers true exactly when some mid is
    attached to the transport asked about, and false exactly when no mid
    is; with an empty mid map nothing is in use. *)
Theorem TransportInUse_iff t c :
  (TransportInUse t c = true ↔ ∃ mid, mid_to_transport_ c !! mid = Some t) ∧
  (TransportInUse t c = false ↔ ∀ mid, mid_to_transport_ c !! mid ≠ Some t) ∧
  (mid_to_transport_ c = ∅ → TransportInUse t c = false).
Proof.
  assert (Hfalse : TransportInUse t c = false ↔
                   ∀ mid, mid_to_transport_ c !! mid ≠ Some t).
  { rewrite <- not_true_iff_false, TransportInUse_true. split.
    - intros Hno mid Hmid. apply Hno. by exists mid.
    - intros Hno [mid Hmid]. by apply (Hno mid). }
  split; [apply TransportInUse_true|]. split; [done|].
  intros Hempty. apply Hfalse. intros mid. by rewrite Hempty, lookup_empty.
Qed.

(** X2.  A call of [SetTransportForMid] with a present transport always
    returns, whatever the collaborator answers, and afterwards the mid
    looks up to that transport, the transport is in use, every other mid
    looks up as before and the owning map is untouched. *)
Theorem SetTransportForMid_then_lookup c e mid t :
  t ≠ nullptr →
  ∃ r c' e',
    SetTransportForMid mid t c e = Done r c' e' ∧
    GetTransportForMid mid c' = t ∧
    TransportInUse t c' = true ∧
    (∀ mid', mid' ≠ mid →
             GetTransportForMid mid' c' = GetTransportForMid mid' c) ∧
    jsep_transports_by_name_ c' = jsep_transports_by_name_ c.
Proof.
  intros Hnn. apply N.eqb_neq in Hnn. rewrite SetTransportForMid_eq, Hnn.
  destruct (bool_decide_reflect (mid_to_transport_ c !! mid = Some t))
    as [Hmid|Hmid].
  - exists true, c, e. split; [done|]. unfold GetTransportForMid.
    rewrite Hmid. split; [done|]. split; [|done].
    apply TransportInUse_true. by exists mid.
  - eexists _, _, _. split; [done|]. unfold GetTransportForMid; simpl.
    rewrite lookup_insert_eq. split; [done|]. split; [|split; [|done]].
    + apply TransportInUse_true. exists mid. simpl. apply lookup_insert_eq.
    + intros mid' Hne. by rewrite lookup_insert_ne.
Qed.

(** X3.  [RemoveTransportForMid] returns exactly when the collaborator
    accepts the removal; it then leaves the mid without a transport, every
    other mid as before, and the owning map and the pending log untouched.
    When the collaborator refuses, the contract check fails. *)
Theorem RemoveTransportForMid_then_lookup c e mid :
  ((map_change_callback_ c mid nullptr (world e)).1 = true →
   ∃ c' e',
     RemoveTransportForMid mid c e = Done tt c' e' ∧
     GetTransportForMid mid c' = nullptr ∧
     (∀ mid', mid' ≠ mid →
              GetTransportForMid mid' c' = GetTransportForMid mid' c) ∧
     jsep_transports_by_name_ c' = jsep_transports_by_name_ c ∧
     pending_mids_ c' = pending_mids_ c ∧
     calls e' = calls e ++ [MapChange mid nullptr]) ∧
  ((map_change_callback_ c mid nullptr (world e)).1 = false →
   RemoveTransportForMid mid c e = DcheckFailed).
Proof.
  rewrite RemoveTransportForMid_eq. split; intros ->; [|done].
  eexists _, _. split; [done|]. unfold GetTransportForMid; simpl.
  rewrite lookup_delete_eq. split; [done|]. split; [|done].
  intros mid' Hne. by rewrite lookup_delete_ne.
Qed.

(** X4.  [RegisterTransport] runs no callback; afterwards the name looks up
    to the registered transport, which [Transports] lists, every other name
    looks up as before, and the mid map and the pending log are untouched. *)
Theorem RegisterTransport_then_lookup c e name t :
  ∃ c',
    RegisterTransport name t c e = Done tt c' e ∧
    GetTransportByName name c' = t ∧
    t ∈ Transports c' ∧
    (∀ name', name' ≠ name →
              GetTransportByName name' c' = GetTransportByName name' c) ∧
    mid_to_transport_ c' = mid_to_transport_ c ∧
    pending_mids_ c' = pending_mids_ c.
Proof.
  eexists. split; [done|]. unfold GetTransportByName, Transports; simpl.
  rewrite lookup_insert_eq. split; [done|]. split; [|split; [|done]].
  - apply list_elem_of_fmap. exists (name, t). split; [done|].
    apply elem_of_std_map_items, lookup_insert_eq.
  - intros name' Hne. by rewrite lookup_insert_ne.
Qed.

(** X5.  [Transports] lists the transports of the owning map, one per
    registered name, in ascending order of the names. *)
Theorem Transports_owned c :
  (∀ t, t ∈ Transports c ↔ ∃ name, jsep_transports_by_name_ c !! name = Some t) ∧
  length (Transports c) = size (jsep_transports_by_name_ c) ∧
  Transports c = (std_map_items (jsep_transports_by_name_ c)).*2 ∧
  Sorted key_le (std_map_items (jsep_transports_by_name_ c)) ∧
  NoDup (std_map_items (jsep_transports_by_name_ c)).*1.
Proof.
  split; [|split; [|split; [done|split]]].
  - intros t. unfold Transports. rewrite list_elem_of_fmap. split.
    + intros ([k v] & -> & Hin). exists k. by apply elem_of_std_map_items.
    + intros [name Hname]. exists (name, t). split; [done|].
      by apply elem_of_std_map_items.
  - unfold Transports. by rewrite length_fmap, length_std_map_items.
  - apply Sorted_merge_sort, _.
  - apply NoDup_std_map_items_names.
Qed.

End Lookups.

(** ** Teardown, and what rollback and the destruction check touch *)

Section Lifecycle.

Context {W : Type}.
Implicit Types (c : JsepTransportCollection W) (e : Env W).
Implicit Types (m bn : gmap string JsepTransportPtr).
Local Open Scope op_scope.

Lemma length_filter_eq_NoDup (a : string) (l : list string) :
  NoDup l →
  length (filter (λ x, x = a) l) = if decide (a ∈ l) then 1 else 0.
Proof.
  induction 1 as [|x l Hx Hnd IH]; [done|].
  rewrite filter_cons. destruct (decide (x = a)) as [->|Hne].
  - rewrite decide_True by left. cbn [length]. rewrite IH.
    by rewrite decide_False.
  - rewrite IH. destruct (decide (a ∈ l)) as [Hin|Hout].
    + rewrite decide_True; [done | by right].
    + rewrite decide_False; [done|].
      intros [->|Hin]%elem_of_cons; [by apply Hne | by apply Hout].
Qed.

Lemma std_map_items_empty {V} : std_map_items (∅ : gmap string V) = [].
Proof. unfold std_map_items. by rewrite map_to_list_empty. Qed.

(** X6.  [DestroyAllTransports] always returns, whatever the collaborator
    answers.  It tells the collaborator once about every registered name,
    in ascending order of the names and with no transport, never runs the
    state-change callback, empties the owning map, and leaves the mid map
    and the pending log as they were. *)
Theorem DestroyAllTransports_teardown c e :
  let names := (std_map_items (jsep_transports_by_name_ c)).*1 in
  ∃ c' e',
    DestroyAllTransports c e = Done tt c' e' ∧
    calls e' = calls e ++ removal_notices names ∧
    Sorted key_le (std_map_items (jsep_transports_by_name_ c)) ∧
    (∀ name, invocations (MapChange name nullptr) (removal_notices names) =
             if decide (is_Some (jsep_transports_by_name_ c !! name))
             then 1 else 0) ∧
    invocations StateChange (removal_notices names) = 0 ∧
    Transports c' = [] ∧
    (∀ name, GetTransportByName name c' = nullptr) ∧
    mid_to_transport_ c' = mid_to_transport_ c ∧
    pending_mids_ c' = pending_mids_ c.
Proof.
  intros names. rewrite DestroyAllTransports_eq. eexists _, _.
  split; [done|]. split; [done|]. split; [apply Sorted_merge_sort, _|].
  split; [|split; [apply invocations_StateChange_removal_notices|]].
  - intros name. rewrite invocations_removal_notices.
    rewrite length_filter_eq_NoDup by apply NoDup_std_map_items_names.
    subst names.
    destruct (decide (is_Some (jsep_transports_by_name_ c !! name)))
      as [Hsome|Hnone].
    + rewrite decide_True; [done|]. by apply elem_of_std_map_items_names.
    + rewrite decide_False; [done|]. by rewrite elem_of_std_map_items_names.
  - unfold Transports, GetTransportByName; simpl.
    rewrite std_map_items_empty. split; [done|]. split; [|done].
    intros name. by rewrite lookup_empty.
Qed.

Lemma RemoveTransportForMid_no_null mid c e a c' e' :
  no_null_association c →
  RemoveTransportForMid mid c e = Done a c' e' →
  no_null_association c'.
Proof.
  intros Hinv [-> _]%RemoveTransportForMid_Done k; simpl.
  intros [_ Hk]%lookup_delete_Some. by apply (Hinv k).
Qed.

Lemma MaybeDestroyJsepTransport_mid_map mid c e a c' e' :
  MaybeDestroyJsepTransport mid c e = Done a c' e' →
  mid_to_transport_ c' = mid_to_transport_ c ∧
  pending_mids_ c' = pending_mids_ c.
Proof.
  rewrite MaybeDestroyJsepTransport_eq.
  destruct (jsep_transports_by_name_ c !! mid) as [t|];
    [|by intros [= _ <- _]].
  destruct (bool_decide (referenced (mid_to_transport_ c) t));
    by intros [= _ <- _].
Qed.

(** X7.  No operation attaches a mid to the null transport: a registry in
    which no mid maps to [nullptr] stays so under every member function
    that returns.  In such a registry [GetTransportForMid] answers
    [nullptr] only for a mid that has no entry, and [nullptr] is never in
    use. *)
Theorem no_null_association_kept c e :
  no_null_association c →
  (∀ mid, GetTransportForMid mid c = nullptr ↔
          mid_to_transport_ c !! mid = None) ∧
  TransportInUse nullptr c = false ∧
  (∀ name t a c' e',
     RegisterTransport name t c e = Done a c' e' → no_null_association c') ∧
  (∀ a c' e',
     DestroyAllTransports c e = Done a c' e' → no_null_association c') ∧
  (∀ mid t r c' e',
     SetTransportForMid mid t c e = Done r c' e' → no_null_association c') ∧
  (∀ mid a c' e',
     RemoveTransportForMid mid c e = Done a c' e' → no_null_association c') ∧
  (∀ mid a c' e',
     MaybeDestroyJsepTransport mid c e = Done a c' e' →
     no_null_association c') ∧
  (∀ a c' e',
     RollbackTransports c e = Done a c' e' → no_null_association c') ∧
  (∀ a c' e', CommitTransports c e = Done a c' e' → no_null_association c').
Proof.
  intros Hinv. repeat apply conj.
  - intros mid. unfold GetTransportForMid.
    destruct (mid_to_transport_ c !! mid) as [t|] eqn:Hmid; [|done].
    split; [|done]. intros ->. by destruct (Hinv mid).
  - rewrite TransportInUse_referenced. apply bool_decide_eq_false_2.
    intros [mid Hmid]. by apply (Hinv mid).
  - by intros name t a c' e' [= _ <- _].
  - intros a c' e'. rewrite DestroyAllTransports_eq. by intros [= _ <- _].
  - intros mid t r c' e'. rewrite SetTransportForMid_eq.
    destruct (N.eqb_spec t nullptr) as [|Hnn]; [done|].
    destruct (bool_decide (mid_to_transport_ c !! mid = Some t)).
    + by intros [= _ <- _].
    + intros [= _ <- _] k; simpl. rewrite lookup_insert.
      destruct (decide (mid = k)); [congruence | apply Hinv].
  - intros. by eapply RemoveTransportForMid_no_null.
  - intros mid a c' e' [Hm _]%MaybeDestroyJsepTransport_mid_map.
    unfold no_null_association. by rewrite Hm.
  - intros a c' e'. unfold RollbackTransports, op_bind, this, modify.
    destruct (for_each RemoveTransportForMid _ c e) as [a1 c1 e1|] eqn:H1;
      [|done].
    rewrite for_each_MaybeDestroyJsepTransport. intros [= _ <- _].
    assert (Hinv1 : no_null_association c1); [|exact Hinv1].
    eapply (for_each_preserves no_null_association); [|exact Hinv|exact H1].
    intros. by eapply RemoveTransportForMid_no_null.
  - by intros a c' e' [= _ <- _].
Qed.

End Lifecycle.

(** ** More on rollback and the destruction check *)

Section RollbackEffects.

Context {W : Type}.
Implicit Types (c : JsepTransportCollection W) (e : Env W).
Implicit Types (m bn : gmap string JsepTransportPtr).
Local Open Scope op_scope.

Lemma for_each_RemoveTransportForMid_refused mids mid c e :
  mid ∈ mids →
  (∀ w, (map_change_callback_ c mid nullptr w).1 = false) →
  for_each RemoveTransportForMid mids c e = DcheckFailed.
Proof.
  revert c e. induction mids as [|x mids IH]; intros c e Hin Hno.
  - by apply elem_of_nil in Hin.
  - simpl. unfold op_bind. rewrite RemoveTransportForMid_eq.
    destruct (decide (x = mid)) as [->|Hne]; [by rewrite Hno|].
    destruct (map_change_callback_ c x nullptr (world e)).1; [|done].
    apply IH; [|done].
    apply elem_of_cons in Hin as [->|Hin]; [done | done].
Qed.

(** X8.  When the collaborator refuses the removal of a mid that is in the
    pending log, rollback does not return: it fails the contract check of
    [RemoveTransportForMid]. *)
Theorem RollbackTransports_refused c e mid :
  mid ∈ pending_mids_ c →
  (∀ w, (map_change_callback_ c mid nullptr w).1 = false) →
  RollbackTransports c e = DcheckFailed.
Proof.
  intros Hin Hno. unfold RollbackTransports, op_bind, this.
  by rewrite (for_each_RemoveTransportForMid_refused _ mid).
Qed.

Lemma lookup_reclaim mids m bn name :
  reclaim mids m bn !! name =
  if decide (name ∈ mids)
  then match bn !! name with
       | Some t => if decide (referenced m t) then Some t else None
       | None => None
       end
  else bn !! name.
Proof.
  revert bn. induction mids as [|mid mids IH]; intros bn.
  - cbn [reclaim].
    destruct (decide (name ∈ [])) as [Hin|]; [by apply elem_of_nil in Hin|done].
  - cbn [reclaim]. rewrite IH. destruct (decide (name = mid)) as [->|Hne].
    + rewrite (decide_True (P := mid ∈ mid :: mids)) by left.
      destruct (bn !! mid) as [t|] eqn:Hmid.
      * destruct (bool_decide_reflect (referenced m t)) as [Href|Hun].
        -- rewrite Hmid, (decide_True (P := referenced m t)) by done.
           by destruct (decide (mid ∈ mids)).
        -- rewrite lookup_delete_eq, (decide_False (P := referenced m t))
             by done.
           by destruct (decide (mid ∈ mids)).
      * rewrite Hmid. by destruct (decide (mid ∈ mids)).
    + assert (Hsame :
        (match bn !! mid with
         | Some t => if bool_decide (referenced m t) then bn
                     else delete mid bn
         | None => bn
         end) !! name = bn !! name).
      { destruct (bn !! mid) as [t|]; [|done].
        destruct (bool_decide (referenced m t)); [done|].
        by rewrite lookup_delete_ne. }
      rewrite Hsame. destruct (decide (name ∈ mids)) as [Hin|Hout].
      * rewrite (decide_True (P := name ∈ mid :: mids)) by (by right). done.
      * rewrite (decide_False (P := name ∈ mid :: mids)); [done|].
        intros [->|Hin]%elem_of_cons; [by apply Hne | by apply Hout].
Qed.

(** X9.  What a rollback that the collaborator accepts does to the two
    maps.  A mid in the pending log ends without a transport; every other
    mid keeps its transport.  A name outside the pending log keeps its
    registered transport, whether referenced or not; a name in the pending
    log keeps its registered transport exactly when some remaining mid
    still refers to it. *)
Theorem RollbackTransports_lookups c e :
  removal_accepted c →
  ∃ c' e',
    RollbackTransports c e = Done tt c' e' ∧
    (∀ mid, mid_to_transport_ c' !! mid =
            if decide (mid ∈ pending_mids_ c) then None
            else mid_to_transport_ c !! mid) ∧
    (∀ name, jsep_transports_by_name_ c' !! name =
             if decide (name ∈ pending_mids_ c)
             then match jsep_transports_by_name_ c !! name with
                  | Some t =>
                      if decide (referenced (mid_to_transport_ c') t)
                      then Some t else None
                  | None => None
                  end
             else jsep_transports_by_name_ c !! name).
Proof.
  intros Hacc. rewrite RollbackTransports_eq by done.
  eexists _, _. split; [done|]. simpl. split.
  - intros mid. apply lookup_detach_all.
  - intros name. apply lookup_reclaim.
Qed.

(** X10.  Detaching the last mid that refers to a transport and then
    running the destruction check on the name the transport is registered
    under erases the transport and runs the state-change callback once,
    after the removal notice. *)
Theorem last_reference_reclaims c e a name T :
  jsep_transports_by_name_ c !! name = Some T →
  (∀ k, mid_to_transport_ c !! k = Some T → k = a) →
  (map_change_callback_ c a nullptr (world e)).1 = true →
  ∃ c' e',
    (RemoveTransportForMid a ;; MaybeDestroyJsepTransport name) c e =
      Done tt c' e' ∧
    jsep_transports_by_name_ c' = delete name (jsep_transports_by_name_ c) ∧
    mid_to_transport_ c' = delete a (mid_to_transport_ c) ∧
    GetTransportByName name c' = nullptr ∧
    TransportInUse T c' = false ∧
    calls e' = calls e ++ [MapChange a nullptr; StateChange].
Proof.
  intros Hname Honly Hacc. unfold op_bind.
  rewrite RemoveTransportForMid_eq, Hacc, MaybeDestroyJsepTransport_eq.
  simpl. rewrite Hname.
  assert (Hun : ¬ referenced (delete a (mid_to_transport_ c)) T).
  { intros [k [Hne Hk]%lookup_delete_Some]. by apply Hne, eq_sym, Honly. }
  rewrite bool_decide_eq_false_2 by done.
  eexists _, _. split; [done|]. simpl. split; [done|]. split; [done|].
  unfold GetTransportByName; simpl. rewrite lookup_delete_eq.
  split; [done|]. split; [|by rewrite <- app_assoc].
  rewrite TransportInUse_referenced. by apply bool_decide_eq_false_2.
Qed.

(** X11.  Running the destruction check twice on the same name does what
    running it once does: the second run changes nothing and runs no
    callback. *)
Theorem MaybeDestroyJsepTransport_twice c e mid :
  (MaybeDestroyJsepTransport mid ;; MaybeDestroyJsepTransport mid) c e =
  MaybeDestroyJsepTransport mid c e.
Proof.
  unfold op_bind. rewrite !MaybeDestroyJsepTransport_eq.
  destruct (jsep_transports_by_name_ c !! mid) as [t|] eqn:Hmid.
  - destruct (bool_decide (referenced (mid_to_transport_ c) t)) eqn:Href.
    + by rewrite MaybeDestroyJsepTransport_eq, Hmid, Href.
    + rewrite MaybeDestroyJsepTransport_eq. simpl.
      by rewrite lookup_delete_eq.
  - by rewrite MaybeDestroyJsepTransport_eq, Hmid.
Qed.

Lemma RollbackTransports_empty_log c e :
  pending_mids_ c = [] → RollbackTransports c e = Done tt c e.
Proof.
  intros Hempty. unfold RollbackTransports, op_bind, this, modify.
  rewrite Hempty. simpl. destruct c; simpl in *. by subst.
Qed.

Lemma RollbackTransports_Done_empty_log c e a c' e' :
  RollbackTransports c e = Done a c' e' → pending_mids_ c' = [].
Proof.
  unfold RollbackTransports, op_bind, this, modify.
  destruct (for_each RemoveTransportForMid _ c e) as [a1 c1 e1|]; [|done].
  rewrite for_each_MaybeDestroyJsepTransport. by intros [= _ <- _].
Qed.

(** X12.  Once rollback has run, the transaction is closed: a second
    rollback or a commit right after it changes nothing and runs no
    callback (and when the first rollback fails, so does the sequence). *)
Theorem RollbackTransports_closes_transaction c e :
  (RollbackTransports ;; RollbackTransports) c e = RollbackTransports c e ∧
  (RollbackTransports ;; CommitTransports) c e = RollbackTransports c e.
Proof.
  unfold op_bind.
  destruct (RollbackTransports c e) as [[] c' e'|] eqn:Hrun; [|done].
  apply RollbackTransports_Done_empty_log in Hrun.
  split; [by apply RollbackTransports_empty_log|].
  unfold CommitTransports, modify. destruct c'; simpl in *. by subst.
Qed.

End RollbackEffects.

(** ** Handles of bundle groups across edits *)

Section BundleHandles.

Import Bundle.
Implicit Types (groups : list (N * ContentGroup)).

Lemma find_if_addresses bundle_group groups groups' :
  groups.*1 = groups'.*1 →
  find_if bundle_group groups = find_if bundle_group groups'.
Proof.
  revert groups'. induction groups as [|[h g] groups IH];
    intros [|[h' g'] groups']; simpl; try done.
  intros [= -> Hrest]. by rewrite (IH groups').
Qed.

Lemma find_if_is_Some bundle_group groups :
  bundle_group ∈ groups.*1 → is_Some (find_if bundle_group groups).
Proof.
  intros Hin. destruct (find_if bundle_group groups) eqn:Hfind; [done|].
  by apply find_if_None in Hfind.
Qed.

(** X13.  [DeleteGroup] with the address of a stored group erases the
    (first) group stored at that address and keeps every group stored at
    another address.  Stored groups being distinct objects, the handle is
    stale afterwards: using it again, in [DeleteGroup] or in [DeleteMid],
    fails the contract check. *)
Theorem DeleteGroup_effect (b : BundleManager) bundle_group :
  bundle_group ∈ (bundle_groups_ b).*1 →
  ∃ i g b',
    bundle_groups_ b !! i = Some (bundle_group, g) ∧
    DeleteGroup bundle_group b = Returns b' ∧
    bundle_groups_ b' = delete i (bundle_groups_ b) ∧
    length (bundle_groups_ b) = S (length (bundle_groups_ b')) ∧
    (∀ h g', h ≠ bundle_group →
             ((h, g') ∈ bundle_groups_ b' ↔ (h, g') ∈ bundle_groups_ b)) ∧
    (NoDup (bundle_groups_ b).*1 →
     (bundle_group ∉ (bundle_groups_ b').*1) ∧
     DeleteGroup bundle_group b' = CheckFailed ∧
     ∀ mid, DeleteMid bundle_group mid b' = CheckFailed).
Proof.
  intros Hin. unfold DeleteGroup at 1.
  destruct (find_if_is_Some _ _ Hin) as [i Hfind]. rewrite Hfind.
  destruct (find_if_Some _ _ _ Hfind) as [[g Hg] _].
  exists i, g. eexists. split; [done|]. split; [done|]. simpl.
  split; [done|].
  pose proof (take_drop_middle _ _ _ Hg) as Hsplit.
  rewrite delete_take_drop.
  remember (take i (bundle_groups_ b)) as before eqn:Hbefore.
  remember (drop (S i) (bundle_groups_ b)) as after eqn:Hafter.
  clear Hbefore Hafter Hfind Hg Hin. rewrite <- Hsplit. split; [|split].
  - rewrite !length_app. simpl. lia.
  - intros h g' Hne. rewrite !elem_of_app, elem_of_cons. split; [tauto|].
    intros [?|[[= ? ?]|?]]; tauto.
  - rewrite fmap_app, fmap_cons.
    intros (_ & Hleft & [Hright _]%NoDup_cons)%NoDup_app.
    assert (Hgone : bundle_group ∉ (before ++ after).*1).
    { rewrite fmap_app, elem_of_app. intros [Hl|Hr]; [|done].
      apply (Hleft _ Hl). by left. }
    split; [done|]. apply find_if_None in Hgone.
    unfold DeleteGroup, DeleteMid. simpl. by rewrite Hgone.
Qed.

(** X14.  [DeleteMid] keeps every handle: the stored groups keep their
    addresses, their positions and their kind tags, so a lookup by any
    address finds the same position before and after, and the same handle
    can be used again. *)
Theorem DeleteMid_keeps_handles (b : BundleManager) bundle_group mid :
  bundle_group ∈ (bundle_groups_ b).*1 →
  ∃ b',
    DeleteMid bundle_group mid b = Returns b' ∧
    (bundle_groups_ b').*1 = (bundle_groups_ b).*1 ∧
    (λ x, semantics_ x.2) <$> bundle_groups_ b' =
      (λ x, semantics_ x.2) <$> bundle_groups_ b ∧
    (∀ h, find_if h (bundle_groups_ b') = find_if h (bundle_groups_ b)) ∧
    (∀ mid', ∃ b'', DeleteMid bundle_group mid' b' = Returns b'').
Proof.
  intros Hin. unfold DeleteMid at 1.
  destruct (find_if_is_Some _ _ Hin) as [i Hfind]. rewrite Hfind.
  eexists. split; [done|]. simpl.
  assert (Haddr : (alter (λ group, (group.1, RemoveContentName mid group.2))
                     i (bundle_groups_ b)).*1 = (bundle_groups_ b).*1).
  { rewrite (list_fmap_alter _ _ id) by (by apply Forall_true).
    by apply list_alter_id. }
  split; [done|]. split; [|split].
  - rewrite (list_fmap_alter _ _ id) by (by apply Forall_true).
    by apply list_alter_id.
  - intros h. by apply find_if_addresses.
  - intros mid'. unfold DeleteMid. simpl.
    rewrite (find_if_addresses _ _ _ Haddr), Hfind. by eexists.
Qed.

End BundleHandles.

(** ** Rollback leaves no tentative association behind *)

Section Tentative.

Context {W : Type}.
Implicit Types (c : JsepTransportCollection W) (e : Env W).
Local Open Scope op_scope.

Lemma run_ops_tentative (M : gmap string JsepTransportPtr) ops c e :
  removal_accepted c →
  (∀ k, k ∉ pending_mids_ c →
        mid_to_transport_ c !! k = M !! k ∨ mid_to_transport_ c !! k = None) →
  (∀ mid t, SetOp mid t ∈ ops → t ≠ nullptr) →
  ∃ c' e',
    for_each run_op ops c e = Done tt c' e' ∧
    removal_accepted c' ∧
    (∀ k, k ∉ pending_mids_ c' →
          mid_to_transport_ c' !! k = M !! k ∨
          mid_to_transport_ c' !! k = None) ∧
    (∀ k, k ∉ op_mid <$> ops →
          mid_to_transport_ c' !! k = mid_to_transport_ c !! k ∧
          (k ∈ pending_mids_ c' → k ∈ pending_mids_ c)).
Proof.
  revert c e. induction ops as [|o ops IH]; intros c e Hacc Hrest Hnn.
  - by exists c, e.
  - assert (Hnn' : ∀ mid t, SetOp mid t ∈ ops → t ≠ nullptr).
    { intros mid t Hin. apply (Hnn mid). by right. }
    assert (Hstep : ∃ c1 e1,
              run_op o c e = Done tt c1 e1 ∧ removal_accepted c1 ∧
              (∀ k, k ∉ pending_mids_ c1 →
                    mid_to_transport_ c1 !! k = M !! k ∨
                    mid_to_transport_ c1 !! k = None) ∧
              (∀ k, k ≠ op_mid o →
                    mid_to_transport_ c1 !! k = mid_to_transport_ c !! k ∧
                    (k ∈ pending_mids_ c1 → k ∈ pending_mids_ c))).
    { destruct o as [mid t|mid]; simpl.
      - unfold op_bind. rewrite SetTransportForMid_eq.
        assert (Ht : (t =? nullptr)%N = false).
        { apply N.eqb_neq, (Hnn mid). by left. }
        rewrite Ht.
        destruct (bool_decide (mid_to_transport_ c !! mid = Some t));
          unfold op_ret.
        + by exists c, e.
        + eexists _, _. split; [done|]. simpl. split; [done|]. split.
          * intros k [Hk Hne%not_elem_of_cons]%not_elem_of_app.
            destruct Hne as [Hne _].
            rewrite lookup_insert_ne by done. by apply Hrest.
          * intros k Hne. rewrite lookup_insert_ne by done. split; [done|].
            intros [Hk|Hk%list_elem_of_singleton]%elem_of_app; done.
      - rewrite RemoveTransportForMid_eq, Hacc.
        eexists _, _. split; [done|]. simpl. split; [done|]. split.
        + intros k Hk. destruct (decide (k = mid)) as [->|Hne].
          * right. apply lookup_delete_eq.
          * rewrite lookup_delete_ne by done. by apply Hrest.
        + intros k Hne. by rewrite lookup_delete_ne. }
    destruct Hstep as (c1 & e1 & Hrun1 & Hacc1 & Hrest1 & Hframe1).
    destruct (IH c1 e1 Hacc1 Hrest1 Hnn')
      as (c' & e' & Hrun & Hacc' & Hrest' & Hframe).
    exists c', e'. cbn [for_each]. unfold op_bind. rewrite Hrun1.
    split; [done|]. split; [done|]. split; [done|].
    intros k Hk. rewrite fmap_cons in Hk.
    apply not_elem_of_cons in Hk as [Hne Hk].
    destruct (Hframe k Hk) as [Heq Hpend].
    destruct (Hframe1 k Hne) as [Heq1 Hpend1].
    split; [congruence | auto].
Qed.

(** X15.  Whatever mix of [SetTransportForMid] and [RemoveTransportForMid]
    calls a transaction makes, a rollback that the collaborator accepts
    leaves no association that was not there at the boundary: the mid map
    afterwards is a part of the mid map at the boundary, every mid the
    transaction did not name keeps its transport, and the log is empty. *)
Theorem RollbackTransports_leaves_submap c e ops :
  pending_mids_ c = [] →
  removal_accepted c →
  (∀ mid t, SetOp mid t ∈ ops → t ≠ nullptr) →
  ∃ c' e',
    (for_each run_op ops ;; RollbackTransports) c e = Done tt c' e' ∧
    mid_to_transport_ c' ⊆ mid_to_transport_ c ∧
    (∀ k, k ∉ op_mid <$> ops →
          mid_to_transport_ c' !! k = mid_to_transport_ c !! k) ∧
    pending_mids_ c' = [].
Proof.
  intros Hempty Hacc Hnn.
  destruct (run_ops_tentative (mid_to_transport_ c) ops c e)
    as (c1 & e1 & Hrun & Hacc1 & Hrest & Hframe); try done.
  { intros k _. by left. }
  unfold op_bind. rewrite Hrun, RollbackTransports_eq by done.
  eexists _, _. split; [done|]. simpl. split; [|split; [|done]].
  - apply map_subseteq_spec. intros k t. rewrite lookup_detach_all.
    destruct (decide (k ∈ pending_mids_ c1)) as [|Hout]; [done|].
    intros Hk. destruct (Hrest k Hout) as [Heq|Heq]; congruence.
  - intros k Hk. destruct (Hframe k Hk) as [Heq Hpend].
    rewrite lookup_detach_all, decide_False; [done|].
    intros Hin. apply Hpend in Hin. rewrite Hempty in Hin.
    by apply elem_of_nil in Hin.
Qed.

(** X16.  A commit makes a tentative association permanent: after
    [SetTransportForMid] and [CommitTransports], a rollback changes nothing
    and runs no callback, and the mid still looks up to the transport. *)
Theorem CommitTransports_keeps_association c e mid t :
  t ≠ nullptr →
  ∃ r c1 e1,
    SetTransportForMid mid t c e = Done r c1 e1 ∧
    (SetTransportForMid mid t ;; CommitTransports ;; RollbackTransports) c e =
      Done tt (set_pending_mids (λ _, []) c1) e1 ∧
    GetTransportForMid mid (set_pending_mids (λ _, []) c1) = t.
Proof.
  intros Hnn. apply N.eqb_neq in Hnn. unfold op_bind.
  rewrite SetTransportForMid_eq, Hnn.
  destruct (bool_decide_reflect (mid_to_transport_ c !! mid = Some t))
    as [Hmid|Hmid].
  - exists true, c, e. split; [done|]. split.
    + unfold CommitTransports, modify. by apply RollbackTransports_empty_log.
    + unfold GetTransportForMid; simpl. by rewrite Hmid.
  - eexists _, _, _. split; [done|]. split.
    + unfold CommitTransports, modify. by apply RollbackTransports_empty_log.
    + unfold GetTransportForMid; simpl. by rewrite lookup_insert_eq.
Qed.

End Tentative.

(** * The further properties at concrete registries *)

Lemma TransportInUse_iff_witness :
  TransportInUse 5%N
    (mkCollection {[ "audio" := 5%N ]} ∅ [] accept_all no_state) = false ∧
  TransportInUse 5%N bundled = true.
Proof.
  split.
  - apply (TransportInUse_iff 5%N
             (mkCollection {[ "audio" := 5%N ]} ∅ [] accept_all no_state)).
    reflexivity.
  - apply (TransportInUse_iff 5%N bundled). by exists "audio".
Defined.

Lemma SetTransportForMid_then_lookup_witness :
  6%N ≠ nullptr ∧
  ∃ r c' e',
    SetTransportForMid "video" 6%N one_stream_strict quiet = Done r c' e' ∧
    GetTransportForMid "video" c' = 6%N ∧
    TransportInUse 6%N c' = true.
Proof.
  assert (Hnn : 6%N ≠ nullptr) by done. split; [done|].
  destruct (SetTransportForMid_then_lookup one_stream_strict quiet "video"
              6%N Hnn) as (r & c' & e' & Hrun & Hget & Huse & _).
  by exists r, c', e'.
Defined.

Lemma RemoveTransportForMid_then_lookup_witness :
  (∃ c' e',
     RemoveTransportForMid "audio" one_stream quiet = Done tt c' e' ∧
     GetTransportForMid "audio" c' = nullptr ∧
     calls e' = [MapChange "audio" nullptr]) ∧
  RemoveTransportForMid "video" stuck_transaction quiet = DcheckFailed.
Proof.
  split.
  - destruct (proj1 (RemoveTransportForMid_then_lookup one_stream quiet "audio")
                eq_refl) as (c' & e' & Hrun & Hget & _ & _ & _ & Hcalls).
    by exists c', e'.
  - exact (proj2 (RemoveTransportForMid_then_lookup stuck_transaction quiet
                    "video") eq_refl).
Defined.

Lemma RegisterTransport_then_lookup_witness :
  ∃ c',
    RegisterTransport "audio" 7%N one_stream quiet = Done tt c' quiet ∧
    GetTransportByName "audio" c' = 7%N ∧
    GetTransportByName "spare" c' = 6%N.
Proof.
  destruct (RegisterTransport_then_lookup one_stream quiet "audio" 7%N)
    as (c' & Hrun & Hget & _ & Hframe & _).
  exists c'. split; [done|]. split; [done|].
  rewrite Hframe; [reflexivity|]. intros Heq. discriminate Heq.
Defined.

Lemma one_stream_no_null : no_null_association one_stream.
Proof.
  intros mid Hmid. unfold one_stream in Hmid. cbn [mid_to_transport_] in Hmid.
  by apply lookup_singleton_Some in Hmid as [_ [=]].
Defined.

Lemma no_null_association_kept_witness :
  no_null_association one_stream ∧
  TransportInUse nullptr one_stream = false ∧
  no_null_association
    (mkCollection {[ "audio" := 5%N; "spare" := 6%N ]}
       (<["video" := 6%N]> {[ "audio" := 5%N ]}) ["video"]
       accept_all no_state).
Proof.
  destruct (no_null_association_kept one_stream quiet one_stream_no_null)
    as (_ & Hnull & _ & _ & Hset & _).
  split; [apply one_stream_no_null|]. split; [done|].
  apply (Hset "video" 6%N true _
           {| world := tt; calls := [MapChange "video" 6%N] |}).
  vm_compute. reflexivity.
Defined.

Lemma RollbackTransports_refused_witness :
  "video" ∈ pending_mids_ stuck_transaction ∧
  RollbackTransports stuck_transaction quiet = DcheckFailed.
Proof.
  assert (Hin : "video" ∈ pending_mids_ stuck_transaction) by left.
  split; [done|].
  apply (RollbackTransports_refused stuck_transaction quiet "video" Hin).
  intros w. reflexivity.
Defined.

Lemma RollbackTransports_lookups_witness :
  removal_accepted in_transaction ∧
  ∃ c' e',
    RollbackTransports in_transaction quiet = Done tt c' e' ∧
    mid_to_transport_ c' !! "video" = None ∧
    mid_to_transport_ c' !! "audio" = Some 5%N ∧
    jsep_transports_by_name_ c' !! "audio" = Some 5%N.
Proof.
  split; [apply accept_all_removal_accepted|].
  destruct (RollbackTransports_lookups in_transaction quiet
              (accept_all_removal_accepted _ _ _ _))
    as (c' & e' & Hrun & Hm & Hbn).
  exists c', e'. split; [done|]. rewrite !Hm, Hbn.
  split; [reflexivity|]. split; reflexivity.
Defined.

Lemma last_reference_reclaims_witness :
  ∃ c' e',
    (RemoveTransportForMid "audio" ;; MaybeDestroyJsepTransport "audio")
      one_stream quiet = Done tt c' e' ∧
    GetTransportByName "audio" c' = nullptr ∧
    TransportInUse 5%N c' = false ∧
    calls e' = [MapChange "audio" nullptr; StateChange].
Proof.
  assert (Honly : ∀ k, mid_to_transport_ one_stream !! k = Some 5%N →
                       k = "audio").
  { intros k Hk. unfold one_stream in Hk. cbn [mid_to_transport_] in Hk.
    by apply lookup_singleton_Some in Hk as [<- _]. }
  destruct (last_reference_reclaims one_stream quiet "audio" "audio" 5%N
              eq_refl Honly eq_refl)
    as (c' & e' & Hrun & _ & _ & Hget & Huse & Hcalls).
  by exists c', e'.
Defined.

Lemma two_groups_distinct : NoDup (Bundle.bundle_groups_ two_groups).*1.
Proof.
  cbn. apply NoDup_cons. split.
  - intros [Heq|Hin]%elem_of_cons; [discriminate Heq|].
    by apply elem_of_nil in Hin.
  - apply NoDup_singleton.
Defined.

Lemma DeleteGroup_effect_witness :
  100%N ∈ (Bundle.bundle_groups_ two_groups).*1 ∧
  ∃ b',
    Bundle.DeleteGroup 100%N two_groups = Bundle.Returns b' ∧
    length (Bundle.bundle_groups_ b') = 1 ∧
    Bundle.DeleteGroup 100%N b' = Bundle.CheckFailed ∧
    Bundle.DeleteMid 100%N "audio" b' = Bundle.CheckFailed.
Proof.
  assert (Hin : 100%N ∈ (Bundle.bundle_groups_ two_groups).*1).
  { apply list_elem_of_lookup. by exists 0. }
  split; [done|].
  destruct (DeleteGroup_effect two_groups 100%N Hin)
    as (i & g & b' & _ & Hrun & _ & Hlen & _ & Hstale).
  destruct (Hstale two_groups_distinct) as (_ & Hgroup & Hmid).
  exists b'. split; [done|]. split; [|by split].
  cbn in Hlen. by injection Hlen.
Defined.

Lemma DeleteMid_keeps_handles_witness :
  200%N ∈ (Bundle.bundle_groups_ two_groups).*1 ∧
  ∃ b',
    Bundle.DeleteMid 200%N "video" two_groups = Bundle.Returns b' ∧
    (Bundle.bundle_groups_ b').*1 = [100%N; 200%N] ∧
    ∃ b'', Bundle.DeleteMid 200%N "data" b' = Bundle.Returns b''.
Proof.
  assert (Hin : 200%N ∈ (Bundle.bundle_groups_ two_groups).*1).
  { apply list_elem_of_lookup. by exists 1. }
  split; [done|].
  destruct (DeleteMid_keeps_handles two_groups 200%N "video" Hin)
    as (b' & Hrun & Haddr & _ & _ & Hagain).
  exists b'. split; [done|]. split; [by rewrite Haddr | apply Hagain].
Defined.

Lemma RollbackTransports_leaves_submap_witness :
  ∃ c' e',
    (for_each run_op [SetOp "audio" 6%N; RemoveOp "audio"; SetOp "video" 5%N] ;;
     RollbackTransports) one_stream quiet = Done tt c' e' ∧
    mid_to_transport_ c' ⊆ mid_to_transport_ one_stream ∧
    pending_mids_ c' = [].
Proof.
  destruct (RollbackTransports_leaves_submap one_stream quiet
              [SetOp "audio" 6%N; RemoveOp "audio"; SetOp "video" 5%N])
    as (c' & e' & Hrun & Hsub & _ & Hpend).
  - reflexivity.
  - apply accept_all_removal_accepted.
  - intros mid t Hin.
    repeat (apply elem_of_cons in Hin as [Heq|Hin];
            [by (discriminate Heq || (injection Heq as -> ->))|]).
    by apply elem_of_nil in Hin.
  - by exists c', e'.
Defined.

Lemma CommitTransports_keeps_association_witness :
  6%N ≠ nullptr ∧
  ∃ r c1 e1,
    SetTransportForMid "video" 6%N one_stream quiet = Done r c1 e1 ∧
    (SetTransportForMid "video" 6%N ;; CommitTransports ;; RollbackTransports)
      one_stream quiet = Done tt (set_pending_mids (λ _, []) c1) e1 ∧
    GetTransportForMid "video" (set_pending_mids (λ _, []) c1) = 6%N.
Proof.
  assert (Hnn : 6%N ≠ nullptr) by done. split; [done|].
  exact (CommitTransports_keeps_association one_stream quiet "video" 6%N Hnn).
Defined.
